(** * A shallow embedding of [scanner.py] (class [WebScanner])

    The scanner probes a list of candidate paths on a target web server
    and records the ones that answer with a genuine page.  This file
    embeds the scanning engine:

    - the token-overlap similarity and the duplicate classifier
      ([similarity], [is_similar_to_index_or_404]);
    - the fetch with bounded retries ([get_page_content]);
    - the baseline detection ([detect_index_and_404]);
    - the per-candidate probe ([check_path]) and the notification
      ([send_discord_webhook]);
    - the coordinator ([scan]): a semaphore-gated pool of cooperative tasks.

    Conventions.  Python [str] values are Rocq [string]s, read as sequences
    of code points below 256.  Python [int]s are [Z].  The coroutines are
    programs of a small free monad [prog] whose effects are the calls into
    the outside world (HTTP GET and POST, printing, appending to the shared
    [found_paths] list); exceptions are the [Throw] leaf.  A program is run
    sequentially against a scripted network ([run]) or, for the pool of
    probe tasks, interleaved effect by effect under any schedule
    ([pool_step]). *)

From Stdlib Require Import ZArith QArith String Ascii List Lia Bool DecimalString.
From stdpp Require Import base gmap sets strings list.
Import ListNotations.

(** ** Python strings *)

Module PyStr.

(** [str.isspace] on code points below 256: TAB..CR, FS..US, SPACE, NEL and
    NBSP. *)
Definition is_space (c : ascii) : bool :=
  let n := nat_of_ascii c in
  (((9 <=? n) && (n <=? 13)) || ((28 <=? n) && (n <=? 32))
   || (n =? 133) || (n =? 160))%nat.

Definition flush (tok : string) : list string :=
  match tok with
  | EmptyString => []
  | _ => [tok]
  end.

(** [split_from tok s]: scan [s] with [tok] the token read so far. *)
Fixpoint split_from (tok : string) (s : string) : list string :=
  match s with
  | EmptyString => flush tok
  | String c rest =>
      if is_space c then flush tok ++ split_from EmptyString rest
      else split_from (tok +:+ String c EmptyString) rest
  end.

(** [s.split()]: the maximal runs of non-whitespace characters, in order. *)
Definition split (s : string) : list string := split_from EmptyString s.

(** [c.lower()] on code points below 256: A..Z and the accented capitals
    192..222 (except the multiplication sign 215) move up by 32. *)
Definition lower_char (c : ascii) : ascii :=
  let n := nat_of_ascii c in
  if (((65 <=? n) && (n <=? 90))
      || ((192 <=? n) && (n <=? 222) && negb (n =? 215)))%nat
  then ascii_of_nat (n + 32) else c.

Fixpoint lower (s : string) : string :=
  match s with
  | EmptyString => EmptyString
  | String c rest => String (lower_char c) (lower rest)
  end.

(** [s.rstrip('/')]. *)
Fixpoint rstrip_slash (s : string) : string :=
  match s with
  | EmptyString => EmptyString
  | String c rest =>
      match rstrip_slash rest with
      | EmptyString => if Ascii.eqb c "/" then EmptyString else String c EmptyString
      | r => String c r
      end
  end.

(** Truth value of a [str]: non-empty. *)
Definition nonempty (s : string) : bool :=
  match s with
  | EmptyString => false
  | _ => true
  end.

Definition no_space (s : string) : Prop :=
  Forall (fun c => is_space c = false) (list_ascii_of_string s).

(** A token: a non-empty string without whitespace. *)
Definition clean (t : string) : Prop := t <> EmptyString /\ no_space t.

End PyStr.

(** ** The similarity classifier *)

(** [set(text.split())]. *)
Definition word_set (text : string) : gset string :=
  list_to_set (PyStr.split text).

(** [similarity(text1, text2)].  Python computes the quotient of the two
    sizes as a double; the model keeps the exact rational.  The only use of
    the value is the comparison with the literal [0.8], and for sets of
    fewer than 10^15 tokens the double comparison and the rational one
    agree: [i/u <= 4/5] rounds to at most the double nearest to 0.8, and
    [i/u > 4/5] exceeds it by at least [1/(5u)], more than one unit in the
    last place. *)
Definition similarity (text1 text2 : string) : Q :=
  let words1 := word_set text1 in
  let words2 := word_set text2 in
  let intersection := words1 ∩ words2 in
  let union := words1 ∪ words2 in
  if bool_decide (union = ∅) then 0%Q
  else (Z.of_nat (size intersection) # Pos.of_nat (size union))%Q.

(** [x > 0.8]. *)
Definition exceeds_threshold (x : Q) : bool := negb (Qle_bool x (8 # 10)).

(** The two baselines kept in [self]: [None] is Python's [None]. *)
Record Baseline := {
  index_content : option string;
  not_found_content : option string
}.

(** [ref and self.similarity(content, ref) > 0.8]: a baseline that is
    [None] or the empty string is falsy and short-circuits. *)
Definition matches (content : string) (ref : option string) : bool :=
  match ref with
  | None => false
  | Some r => PyStr.nonempty r && exceeds_threshold (similarity content r)
  end.

Definition is_similar_to_index_or_404 (self : Baseline) (content : string) : bool :=
  if matches content (index_content self) then true
  else if matches content (not_found_content self) then true
  else false.

(** The classifier in the words of the specification: Jaccard overlap of
    the two lists of distinct tokens, computed by counting. *)
Module Spec.

Definition tokens (s : string) : list string := remove_dups (PyStr.split s).

Definition common (a b : list string) : list string :=
  filter (fun t => t ∈ b) a.

Definition either (a b : list string) : list string :=
  a ++ filter (fun t => t ∉ a) b.

Definition jaccard (a b : string) : Q :=
  let A := tokens a in
  let B := tokens b in
  match length (either A B) with
  | O => 0%Q
  | S _ => (Z.of_nat (length (common A B)) # Pos.of_nat (length (either A B)))%Q
  end.

End Spec.

(** ** URL joining

    [urllib.parse.urljoin] is library code.  The model follows its steps
    (CPython 3.11: [urlsplit] with its removal of leading C0 controls and
    spaces and of tabs and line breaks, [urlparse], the RFC 3986 merge of the
    two paths, [urlunparse]).  [urlsplit] raises [ValueError] on some
    authorities with square brackets and checks a non-ASCII authority under
    NFKC normalisation; neither is modelled, so the model stands for the
    library on [plain] URLs only (ASCII text without square brackets), and
    the theorems that name a joined URL carry that as a hypothesis. *)

Module Urllib.

Definition uses_relative : list string :=
  ["" ; "ftp"; "http"; "gopher"; "nntp"; "imap"; "wais"; "file"; "https";
   "shttp"; "mms"; "prospero"; "rtsp"; "rtspu"; "sftp"; "svn"; "svn+ssh";
   "ws"; "wss"]%string.

Definition uses_netloc : list string :=
  ["" ; "ftp"; "http"; "gopher"; "nntp"; "telnet"; "imap"; "wais"; "file";
   "mms"; "https"; "shttp"; "snews"; "prospero"; "rtsp"; "rtspu"; "rsync";
   "svn"; "svn+ssh"; "sftp"; "nfs"; "git"; "git+ssh"; "ws"; "wss"]%string.

Definition uses_params : list string :=
  ["" ; "ftp"; "hdl"; "prospero"; "http"; "imap"; "https"; "shttp"; "rtsp";
   "rtspu"; "sip"; "sips"; "mms"; "sftp"; "tel"]%string.

Definition mem (s : string) (l : list string) : bool :=
  existsb (String.eqb s) l.

(** [s.find(c)]. *)
Fixpoint find (c : ascii) (s : string) : option nat :=
  match s with
  | EmptyString => None
  | String a rest =>
      if Ascii.eqb a c then Some 0 else option_map S (find c rest)
  end.

(** [s.rfind(c)]. *)
Fixpoint rfind (c : ascii) (s : string) : option nat :=
  match s with
  | EmptyString => None
  | String a rest =>
      match rfind c rest with
      | Some i => Some (S i)
      | None => if Ascii.eqb a c then Some 0 else None
      end
  end.

(** [s[:i]] and [s[i:]]. *)
Definition upto (i : nat) (s : string) : string := substring 0 i s.
Definition from (i : nat) (s : string) : string :=
  substring i (String.length s - i) s.

(** [s.split(c, 1)] when [c] occurs in [s]; [(s, "")] otherwise. *)
Definition cut (c : ascii) (s : string) : string * string :=
  match find c s with
  | Some i => (upto i s, from (S i) s)
  | None => (s, EmptyString)
  end.

(** [s.split(c)]: all the pieces, empty ones included. *)
Fixpoint split_on (c : ascii) (s : string) : list string :=
  match s with
  | EmptyString => [EmptyString]
  | String a rest =>
      if Ascii.eqb a c then EmptyString :: split_on c rest
      else match split_on c rest with
           | t :: ts => String a t :: ts
           | [] => [String a EmptyString]
           end
  end.

Definition is_alpha (c : ascii) : bool :=
  let n := nat_of_ascii c in
  (((65 <=? n) && (n <=? 90)) || ((97 <=? n) && (n <=? 122)))%nat.

Definition is_scheme_char (c : ascii) : bool :=
  let n := nat_of_ascii c in
  (is_alpha c || ((48 <=? n) && (n <=? 57))
   || (n =? 43) || (n =? 45) || (n =? 46))%nat.

Definition head_is (p : ascii -> bool) (s : string) : bool :=
  match s with
  | String a _ => p a
  | EmptyString => false
  end.

Definition starts_with (pre s : string) : bool := String.prefix pre s.

Record Parts := {
  scheme : string;
  netloc : string;
  path : string;
  params : string;
  query : string;
  fragment : string
}.

(** The scheme, when the text before the first colon is one. *)
Definition split_scheme (default url : string) : string * string :=
  match find ":" url with
  | Some (S i) =>
      if head_is is_alpha url
         && forallb is_scheme_char (list_ascii_of_string (upto (S i) url))
      then (PyStr.lower (upto (S i) url), from (S (S i)) url)
      else (default, url)
  | _ => (default, url)
  end.

(** [_splitnetloc(url, 2)]: the authority ends at the first of [/?#]. *)
Fixpoint netloc_end (s : string) : nat :=
  match s with
  | EmptyString => 0
  | String a rest =>
      if Ascii.eqb a "/" || Ascii.eqb a "?" || Ascii.eqb a "#" then 0
      else S (netloc_end rest)
  end.

Definition split_netloc (url : string) : string * string :=
  if starts_with "//" url then
    let rest := from 2 url in
    let n := netloc_end rest in
    (upto n rest, from n rest)
  else (EmptyString, url).

(** [_splitparams]: the parameters of the last path segment. *)
Definition split_params (url : string) : string * string :=
  let start := match rfind "/" url with Some i => i | None => 0 end in
  match find ";" (from start url) with
  | Some j => (upto (start + j) url, from (S (start + j)) url)
  | None => (url, EmptyString)
  end.

(** [url.lstrip(_WHATWG_C0_CONTROL_OR_SPACE)] and the removal of
    [_UNSAFE_URL_BYTES_TO_REMOVE] (tab, line feed, carriage return). *)
Definition is_c0_or_space (c : ascii) : bool := (nat_of_ascii c <=? 32)%nat.

Definition is_unsafe (c : ascii) : bool :=
  let n := nat_of_ascii c in ((n =? 9) || (n =? 10) || (n =? 13))%nat.

Fixpoint lstrip_c0 (s : string) : string :=
  match s with
  | String a rest => if is_c0_or_space a then lstrip_c0 rest else s
  | EmptyString => EmptyString
  end.

Fixpoint remove_unsafe (s : string) : string :=
  match s with
  | String a rest =>
      if is_unsafe a then remove_unsafe rest else String a (remove_unsafe rest)
  | EmptyString => EmptyString
  end.

Definition urlparse (url default : string) : Parts :=
  let url := remove_unsafe (lstrip_c0 url) in
  let '(sch, url) := split_scheme default url in
  let '(loc, url) := split_netloc url in
  let '(url, frag) := cut "#" url in
  let '(url, qry) := cut "?" url in
  let '(url, prm) :=
    if mem sch uses_params then split_params url else (url, EmptyString) in
  {| scheme := sch; netloc := loc; path := url; params := prm;
     query := qry; fragment := frag |}.

Definition urlunparse (p : Parts) : string :=
  let url := if PyStr.nonempty (params p)
             then (path p +:+ ";" +:+ params p) else path p in
  let url :=
    if PyStr.nonempty (netloc p)
       || (PyStr.nonempty (scheme p) && mem (scheme p) uses_netloc
           && negb (starts_with "//" url))
    then "//" +:+ netloc p
         +:+ (if PyStr.nonempty url && negb (starts_with "/" url)
              then "/" +:+ url else url)
    else url in
  let url := if PyStr.nonempty (scheme p) then scheme p +:+ ":" +:+ url else url in
  let url := if PyStr.nonempty (query p) then url +:+ "?" +:+ query p else url in
  if PyStr.nonempty (fragment p) then url +:+ "#" +:+ fragment p else url.

(** [segments[1:-1] = filter(None, segments[1:-1])]. *)
Definition squeeze (segments : list string) : list string :=
  match segments with
  | first :: (_ :: _) as rest =>
      first :: List.filter PyStr.nonempty (removelast rest) ++ [List.last rest EmptyString]
  | _ => segments
  end.

(** The loop over the segments: [..] pops, [.] is skipped. *)
Definition resolve (segments : list string) : list string :=
  fold_left (fun resolved seg =>
    if String.eqb seg ".." then removelast resolved
    else if String.eqb seg "." then resolved
    else resolved ++ [seg]) segments [].

Definition urljoin (base url : string) : string :=
  if negb (PyStr.nonempty base) then url
  else if negb (PyStr.nonempty url) then base
  else
    let b := urlparse base EmptyString in
    let u := urlparse url (scheme b) in
    if negb (String.eqb (scheme u) (scheme b)) || negb (mem (scheme u) uses_relative)
    then url
    else if mem (scheme u) uses_netloc && PyStr.nonempty (netloc u)
    then urlunparse u
    else
      let loc := if mem (scheme u) uses_netloc then netloc b else netloc u in
      if negb (PyStr.nonempty (path u)) && negb (PyStr.nonempty (params u))
      then urlunparse {| scheme := scheme u; netloc := loc; path := path b;
                         params := params b;
                         query := if PyStr.nonempty (query u) then query u else query b;
                         fragment := fragment u |}
      else
        let base_parts := split_on "/" (path b) in
        let base_parts :=
          if PyStr.nonempty (List.last base_parts EmptyString)
          then removelast base_parts else base_parts in
        let segments :=
          if starts_with "/" (path u) then split_on "/" (path u)
          else squeeze (base_parts ++ split_on "/" (path u)) in
        let resolved := resolve segments in
        let resolved :=
          if mem (List.last segments EmptyString) ["."; ".."]%string
          then resolved ++ [EmptyString] else resolved in
        let joined := String.concat "/" resolved in
        urlunparse {| scheme := scheme u; netloc := loc;
                      path := if PyStr.nonempty joined then joined else "/";
                      params := params u; query := query u;
                      fragment := fragment u |}.

(** The URLs on which the model stands for the library: ASCII text without
    square brackets. *)
Definition plain (s : string) : bool :=
  forallb (fun c => (nat_of_ascii c <? 128)%nat
                    && negb (Ascii.eqb c "[") && negb (Ascii.eqb c "]"))
          (list_ascii_of_string s).

End Urllib.

(** ** Coroutines as programs over the outside world *)

(** The exception classes the handlers of the scanner tell apart:
    [except httpx.RequestError] catches the first only, [except Exception]
    all of them. *)
Inductive exn : Type :=
| RequestError      (* httpx.RequestError: connection error, timeout, DNS *)
| TypeError         (* unpacking a value that is no pair *)
| AttributeError    (* a method of [str] called on [None] *)
| ValueError        (* [asyncio.Semaphore] with a negative value *)
| OtherException.   (* anything else the HTTP client raises *)

Definition is_RequestError (e : exn) : bool :=
  match e with
  | RequestError => true
  | _ => false
  end.

Definition is_Exception (e : exn) : bool := true.

(** What the scanner reads of an [httpx.Response]. *)
Record Response := {
  status_code : Z;
  text : string
}.

(** The JSON body of the notification: one embed. *)
Record Payload := {
  title : string;
  description : string;
  color : Z
}.

(** The lines the scanner prints, by kind and content. *)
Inductive line : Type :=
| AttemptFailed (attempt : Z) (full_url : string)
| ErrorRequesting (full_url : string) (retries : Z)
| FailedIndex
| UnableToDetect404
| Found (full_url : string) (status : Z)
| Skipped (full_url : string)
| NotFound (full_url : string) (status : Z)
| ErrorCheckingPath (path : string) (e : exn)
| ErrorInLimitedCheck (path : string) (e : exn)
| TotalFound (n : nat)
| NoSensitiveFiles
| ErrorDuringScan (e : exn)
| WebhookSent
| WebhookFailed (status : Z)
| WebhookError.

(** A coroutine: a tree of the effects it awaits or performs, with one
    continuation per answer of the world. *)
Inductive prog (A : Type) : Type :=
| Ret (a : A)
| Throw (e : exn)
| AwaitGet (url : string) (k : exn + Response -> prog A)
| AwaitPost (url : string) (json : Payload) (k : exn + Response -> prog A)
| Println (l : line) (k : prog A)
| Append (u : string) (k : prog A).

Arguments Ret {A} a.
Arguments Throw {A} e.
Arguments AwaitGet {A} url k.
Arguments AwaitPost {A} url json k.
Arguments Println {A} l k.
Arguments Append {A} u k.

Fixpoint bind {A B : Type} (p : prog A) (f : A -> prog B) : prog B :=
  match p with
  | Ret a => f a
  | Throw e => Throw e
  | AwaitGet u k => AwaitGet u (fun r => bind (k r) f)
  | AwaitPost u j k => AwaitPost u j (fun r => bind (k r) f)
  | Println l k => Println l (bind k f)
  | Append u k => Append u (bind k f)
  end.

#[global] Instance prog_ret : MRet prog := @Ret.
#[global] Instance prog_bind : MBind prog := fun A B f p => bind p f.

(** [try: p  except <caught> as e: handler e]. *)
Fixpoint try_except {A : Type} (p : prog A) (caught : exn -> bool)
    (handler : exn -> prog A) : prog A :=
  match p with
  | Ret a => Ret a
  | Throw e => if caught e then handler e else Throw e
  | AwaitGet u k => AwaitGet u (fun r => try_except (k r) caught handler)
  | AwaitPost u j k => AwaitPost u j (fun r => try_except (k r) caught handler)
  | Println l k => Println l (try_except k caught handler)
  | Append u k => Append u (try_except k caught handler)
  end.

Definition print (l : line) : prog unit := Println l (Ret tt).

Definition raise_or_return (r : exn + Response) : prog Response :=
  match r with
  | inl e => Throw e
  | inr response => Ret response
  end.

(** [await self.client.get(url)] and [await self.client.post(url, json=..)]. *)
Definition client_get (url : string) : prog Response :=
  AwaitGet url raise_or_return.

Definition client_post (url : string) (json : Payload) : prog Response :=
  AwaitPost url json raise_or_return.

(** ** The scanner object *)

Record WebScanner := {
  url : string;
  wordlist : list string;
  webhook_url : option string;
  max_retry : Z;
  threads : Z;
  baseline : Baseline
}.

Definition default_wordlist : list string :=
  ["admin"; "login"; "config"; "backup"; "test"; "phpinfo.php"; ".env";
   ".git"; "wp-admin"; "wp-login.php"]%string.

(** [line.strip()]. *)
Fixpoint lstrip (s : string) : string :=
  match s with
  | EmptyString => EmptyString
  | String c rest => if PyStr.is_space c then lstrip rest else s
  end.

Fixpoint rstrip (s : string) : string :=
  match s with
  | EmptyString => EmptyString
  | String c rest =>
      match rstrip rest with
      | EmptyString => if PyStr.is_space c then EmptyString else String c EmptyString
      | r => String c r
      end
  end.

Definition strip (s : string) : string := rstrip (lstrip s).

(** [load_wordlist]: [file] is the list of lines of the wordlist file, or
    [None] when the file does not exist or cannot be read. *)
Definition load_wordlist (file : option (list string)) : list string :=
  match file with
  | None => default_wordlist
  | Some lines =>
      List.map strip (List.filter (fun l => PyStr.nonempty (strip l)) lines)
  end.

(** [WebScanner.__init__]. *)
Definition new_scanner (url : string) (file : option (list string))
    (webhook_url : option string) (max_retry threads : Z) : WebScanner :=
  {| url := PyStr.rstrip_slash url;
     wordlist := load_wordlist file;
     webhook_url := webhook_url;
     max_retry := max_retry;
     threads := threads;
     baseline := {| index_content := None; not_found_content := None |} |}.

Definition set_index (self : WebScanner) (c : option string) : WebScanner :=
  {| url := url self; wordlist := wordlist self;
     webhook_url := webhook_url self; max_retry := max_retry self;
     threads := threads self;
     baseline := {| index_content := c;
                    not_found_content := not_found_content (baseline self) |} |}.

Definition set_not_found (self : WebScanner) (c : option string) : WebScanner :=
  {| url := url self; wordlist := wordlist self;
     webhook_url := webhook_url self; max_retry := max_retry self;
     threads := threads self;
     baseline := {| index_content := index_content (baseline self);
                    not_found_content := c |} |}.

(** ** The prober *)

(** What [get_page_content] hands back: a pair, or Python's [None] when the
    loop ends without a [return]. *)
Inductive fetched : Type :=
| NoValue
| Pair (status : option Z) (content : option string).

(** [range(n)]. *)
Definition range (n : Z) : list Z := List.map Z.of_nat (seq 0 (Z.to_nat n)).

(** The [for attempt in ...] loop of [get_page_content]: a response is
    returned at once, a [RequestError] is printed and, before the last
    attempt, followed by the next iteration; any other exception leaves the
    function. *)
Fixpoint attempt_loop (self : WebScanner) (full_url : string)
    (attempts : list Z) : prog fetched :=
  match attempts with
  | [] => Ret NoValue
  | attempt :: rest =>
      AwaitGet full_url (fun r =>
        match r with
        | inr response =>
            Ret (Pair (Some (status_code response))
                      (Some (PyStr.lower (text response))))
        | inl e =>
            if is_RequestError e then
              if (attempt <? max_retry self)%Z
              then Println (AttemptFailed (attempt + 1) full_url)
                           (attempt_loop self full_url rest)
              else Println (ErrorRequesting full_url (max_retry self))
                           (Ret (Pair None None))
            else Throw e
        end)
  end.

(** The attempts [j, j+1, ...], [n] of them; they end at [m] when the last
    one is [m]. *)
Definition attempts_from (j n : nat) : list Z := List.map Z.of_nat (seq j n).

Definition ends_at (m : Z) (j n : nat) : Prop :=
  1 <= n /\ (Z.of_nat (j + n) = m + 1)%Z.

Definition get_page_content (self : WebScanner) (path : string) : prog fetched :=
  let full_url := Urllib.urljoin (url self) path in
  attempt_loop self full_url (range (max_retry self + 1)).

(** [status, content = ...]: unpacking [None] raises [TypeError]. *)
Definition unpack (r : fetched) : prog (option Z * option string) :=
  match r with
  | NoValue => Throw TypeError
  | Pair status content => Ret (status, content)
  end.

(** [status == n]. *)
Definition status_is (status : option Z) (n : Z) : bool :=
  match status with
  | Some s => (s =? n)%Z
  | None => false
  end.

(** [status and 200 <= status < 300], for a status that is an [int] and
    for one that may be [None]. *)
Definition in_success_range (s : Z) : bool :=
  negb (s =? 0)%Z && (200 <=? s)%Z && (s <? 300)%Z.

Definition success (status : option Z) : bool :=
  match status with
  | Some s => in_success_range s
  | None => false
  end.

(** Truth value of an optional string: neither [None] nor empty. *)
Definition truthy (s : option string) : bool :=
  match s with
  | Some s => PyStr.nonempty s
  | None => false
  end.

(** ** The baseline fingerprinter *)

Definition detect_index_and_404 (self : WebScanner) : prog (bool * WebScanner) :=
  r ← get_page_content self EmptyString;
  '(status, content) ← unpack r;
  if status_is status 200 then
    let self := set_index self content in
    r ← get_page_content self "nonexistentpage12345";
    '(status, content) ← unpack r;
    if status_is status 404 then
      Ret (true, set_not_found self content)
    else
      r ← get_page_content self "anothernonexistent98765";
      '(status, content) ← unpack r;
      if status_is status 404 then
        Ret (true, set_not_found self content)
      else
        Println UnableToDetect404 (Ret (true, set_not_found self None))
  else
    Println FailedIndex (Ret (false, self)).

(** ** The notification *)

Definition newline : string := String "010"%char EmptyString.

(** [str(n)] for an [int]. *)
Definition str_of_int (n : Z) : string := NilZero.string_of_int (Z.to_int n).

Definition finding_payload (full_url : string) (status : Z) : Payload :=
  {| title := "Sensitive File Found";
     description := "URL: " +:+ full_url +:+ newline +:+ "Status: "
                    +:+ str_of_int status;
     color := 16711680 |}.

Definition send_discord_webhook (self : WebScanner) (full_url : string)
    (status : Z) : prog unit :=
  match webhook_url self with
  | None => Ret tt
  | Some hook =>
      if negb (PyStr.nonempty hook) then Ret tt
      else
        try_except
          (response ← client_post hook (finding_payload full_url status);
           if (status_code response =? 204)%Z then print WebhookSent
           else print (WebhookFailed (status_code response)))
          is_RequestError
          (fun _ => print WebhookError)
  end.

(** ** The probe of one candidate *)

(** [self.is_similar_to_index_or_404(content)] as [check_path] calls it:
    a [content] that is [None] fails at [content.split()] as soon as a
    baseline is there to compare with. *)
Definition classify (self : WebScanner) (content : option string) : prog bool :=
  match content with
  | Some c => Ret (is_similar_to_index_or_404 (baseline self) c)
  | None =>
      if truthy (index_content (baseline self))
         || truthy (not_found_content (baseline self))
      then Throw AttributeError else Ret false
  end.

Definition check_path (self : WebScanner) (path : string) : prog unit :=
  try_except
    (let full_url := Urllib.urljoin (url self) path in
     r ← get_page_content self path;
     '(status, content) ← unpack r;
     match status with
     | Some s =>
         if in_success_range s then
           similar ← classify self content;
           if negb similar then
             Println (Found full_url s)
               (Append full_url
                  (if truthy (webhook_url self)
                   then send_discord_webhook self full_url s
                   else Ret tt))
           else print (Skipped full_url)
         else if negb (s =? 0)%Z then print (NotFound full_url s)
         else Ret tt
     | None => Ret tt
     end)
    is_Exception
    (fun e => print (ErrorCheckingPath path e)).

(** ** The outside world and the sequential execution of a coroutine *)

(** A scripted network: the answer to the [n]-th call made to the HTTP
    client, for each request it could be. *)
Record Network := {
  net_get : nat -> string -> exn + Response;
  net_post : nat -> string -> Payload -> exn + Response
}.

Inductive event : Type :=
| Requested (url : string)
| Posted (url : string) (json : Payload)
| Printed (l : line).

(** [clock] counts the calls made to the client, [found_paths] is the list
    the probes share, [trace] is what an observer has seen so far. *)
Record World := {
  clock : nat;
  found_paths : list string;
  trace : list event
}.

Definition emit (ev : event) (w : World) : World :=
  {| clock := clock w; found_paths := found_paths w; trace := trace w ++ [ev] |}.

Definition tick (w : World) : World :=
  {| clock := S (clock w); found_paths := found_paths w; trace := trace w |}.

Definition push (u : string) (w : World) : World :=
  {| clock := clock w; found_paths := found_paths w ++ [u]; trace := trace w |}.

(** The URLs requested with GET, and the notifications posted, in a trace. *)
Definition requests (t : list event) : list string :=
  omap (fun ev => match ev with Requested u => Some u | _ => None end) t.

Definition posts (t : list event) : list (string * Payload) :=
  omap (fun ev => match ev with Posted u j => Some (u, j) | _ => None end) t.

Definition printed (t : list event) : list line :=
  omap (fun ev => match ev with Printed l => Some l | _ => None end) t.

(** The findings reported in a trace: the URL and the status of each
    [Found] line. *)
Definition findings (t : list event) : list (string * Z) :=
  omap (fun ev => match ev with Printed (Found u s) => Some (u, s) | _ => None end) t.

(** One effect of a coroutine. *)
Definition perform {A : Type} (net : Network) (p : prog A) (w : World)
    : prog A * World :=
  match p with
  | Ret _ | Throw _ => (p, w)
  | AwaitGet u k => (k (net_get net (clock w) u), tick (emit (Requested u) w))
  | AwaitPost u j k => (k (net_post net (clock w) u j), tick (emit (Posted u j) w))
  | Println l k => (k, emit (Printed l) w)
  | Append u k => (k, push u w)
  end.

(** A coroutine awaited to its end. *)
Fixpoint run {A : Type} (net : Network) (p : prog A) (w : World)
    : (exn + A) * World :=
  match p with
  | Ret a => (inr a, w)
  | Throw e => (inl e, w)
  | AwaitGet u k => run net (k (net_get net (clock w) u)) (tick (emit (Requested u) w))
  | AwaitPost u j k => run net (k (net_post net (clock w) u j)) (tick (emit (Posted u j) w))
  | Println l k => run net k (emit (Printed l) w)
  | Append u k => run net k (push u w)
  end.

(** ** The coordinator *)

(** [asyncio.Semaphore(n)]: a counter of free slots; a negative initial
    value is refused. *)
Definition Semaphore (n : Z) : exn + nat :=
  if (n <? 0)%Z then inl ValueError else inr (Z.to_nat n).

(** The body of [limited_check] inside [async with semaphore]. *)
Definition limited_check (self : WebScanner) (path : string) : prog unit :=
  try_except (check_path self path) is_Exception
    (fun e => print (ErrorInLimitedCheck path e)).

(** A probe task: suspended in [semaphore.acquire()], inside the
    [async with] block with the rest of its body to run, or out of it. *)
Inductive task : Type :=
| Waiting (body : prog unit)
| Holding (p : prog unit)
| Finished (r : exn + unit).

(** The tasks under [asyncio.gather]: [value] is the semaphore's counter
    and [failed] the exception [gather] has raised in [scan], if any. *)
Record Pool := {
  value : nat;
  tasks : list task;
  world : World;
  failed : option exn
}.

(** The next move of task [i], when it has one.  Entering [async with]
    takes a slot and needs a free one; leaving it, by the end of the body or
    by an exception, gives the slot back; in between the task performs its
    effects one at a time.  An exception that leaves a task reaches
    [gather], which raises it in [scan]: the pool stops. *)
Definition pool_step (net : Network) (i : nat) (P : Pool) : option Pool :=
  match failed P with
  | Some _ => None
  | None =>
      match tasks P !! i with
      | None => None
      | Some (Finished _) => None
      | Some (Waiting body) =>
          match value P with
          | O => None
          | S v => Some {| value := v; tasks := <[i := Holding body]> (tasks P);
                           world := world P; failed := None |}
          end
      | Some (Holding (Ret tt)) =>
          Some {| value := S (value P);
                  tasks := <[i := Finished (inr tt)]> (tasks P);
                  world := world P; failed := None |}
      | Some (Holding (Throw e)) =>
          Some {| value := S (value P);
                  tasks := <[i := Finished (inl e)]> (tasks P);
                  world := world P; failed := Some e |}
      | Some (Holding p) =>
          let '(p', w') := perform net p (world P) in
          Some {| value := value P; tasks := <[i := Holding p']> (tasks P);
                  world := w'; failed := None |}
      end
  end.

(** The pool driven by a schedule: the list of the tasks the event loop
    picks, a pick of a task that cannot move being skipped. *)
Fixpoint pool_exec (net : Network) (schedule : list nat) (P : Pool) : Pool :=
  match schedule with
  | [] => P
  | i :: rest =>
      match pool_step net i P with
      | Some P' => pool_exec net rest P'
      | None => pool_exec net rest P
      end
  end.

(** The states a pool can reach. *)
Inductive reachable (net : Network) (P : Pool) : Pool -> Prop :=
| reach_here : reachable net P P
| reach_step (P1 P2 : Pool) (i : nat) :
    reachable net P P1 -> pool_step net i P1 = Some P2 -> reachable net P P2.

Definition is_holding (t : task) : bool :=
  match t with
  | Holding _ => true
  | _ => false
  end.

Definition is_finished (t : task) : bool :=
  match t with
  | Finished _ => true
  | _ => false
  end.

(** The number of tasks inside the [async with] block. *)
Definition holders (P : Pool) : nat := length (List.filter is_holding (tasks P)).

(** How [scan] goes up to [asyncio.gather]. *)
Inductive started : Type :=
| Aborted (w : World)                  (* [detect_index_and_404] said no *)
| Crashed (e : exn) (w : World)        (* caught by [scan]'s handler *)
| Dispatched (self : WebScanner) (P : Pool).

(** The pool at [asyncio.gather]: a fresh [found_paths], all the slots
    free, one task per candidate. *)
Definition dispatch (self : WebScanner) (slots : nat) (w : World) : Pool :=
  {| value := slots;
     tasks := List.map (fun path => Waiting (limited_check self path))
                       (wordlist self);
     world := {| clock := clock w; found_paths := []; trace := trace w |};
     failed := None |}.

Definition scan_start (net : Network) (self : WebScanner) (w : World) : started :=
  match run net (detect_index_and_404 self) w with
  | (inl e, w1) => Crashed e (emit (Printed (ErrorDuringScan e)) w1)
  | (inr (false, _), w1) => Aborted w1
  | (inr (true, self1), w1) =>
      match Semaphore (threads self1) with
      | inl e => Crashed e (emit (Printed (ErrorDuringScan e)) w1)
      | inr slots => Dispatched self1 (dispatch self1 slots w1)
      end
  end.

(** The end of [scan], once [gather] has returned or raised; [None] while
    it is still pending. *)
Definition scan_finish (P : Pool) : option World :=
  match failed P with
  | Some e => Some (emit (Printed (ErrorDuringScan e)) (world P))
  | None =>
      if forallb is_finished (tasks P) then
        match found_paths (world P) with
        | [] => Some (emit (Printed NoSensitiveFiles) (world P))
        | _ => Some (emit (Printed (TotalFound (length (found_paths (world P)))))
                          (world P))
        end
      else None
  end.

Definition scan (net : Network) (schedule : list nat) (self : WebScanner)
    (w : World) : option World :=
  match scan_start net self w with
  | Aborted w1 => Some w1
  | Crashed _ w1 => Some w1
  | Dispatched _ P => scan_finish (pool_exec net schedule P)
  end.

(** ** Predicates on coroutines and pools *)

(** The verdict on a fetch in the words of the specification: the status is
    present and in 200..299 and the body is no duplicate of a baseline. *)
Definition genuine (self : WebScanner) (r : exn + fetched) : option Z :=
  match r with
  | inr (Pair (Some s) (Some body)) =>
      if (200 <=? s)%Z && (s <=? 299)%Z
         && negb (is_similar_to_index_or_404 (baseline self) body)
      then Some s else None
  | _ => None
  end.

(** The notification a finding triggers: none without a webhook URL. *)
Definition notification (self : WebScanner) (full_url : string) (s : Z)
    : list (string * Payload) :=
  match webhook_url self with
  | Some hook =>
      if PyStr.nonempty hook then [(hook, finding_payload full_url s)] else []
  | None => []
  end.

(** What a fetch of [full_url] may change between two worlds: it only adds
    requests for that URL and lines that report no finding. *)
Definition fetch_frame (full_url : string) (w w' : World) : Prop :=
  found_paths w' = found_paths w
  /\ posts (trace w') = posts (trace w)
  /\ findings (trace w') = findings (trace w)
  /\ exists n, requests (trace w') = requests (trace w) ++ repeat full_url n.

(** The shapes of what a fetch hands back: [None], [(None, None)], a status
    with a body, or an exception that is no [RequestError]. *)
Definition fetch_shape (r : exn + fetched) : Prop :=
  match r with
  | inl e => is_RequestError e = false
  | inr NoValue => True
  | inr (Pair None None) => True
  | inr (Pair (Some _) (Some _)) => True
  | inr (Pair _ _) => False
  end.

(** The line that ends a probe whose notification got [answer]. *)
Definition delivery_line (path : string) (answer : exn + Response) : line :=
  match answer with
  | inr response =>
      if (status_code response =? 204)%Z then WebhookSent
      else WebhookFailed (status_code response)
  | inl e => if is_RequestError e then WebhookError else ErrorCheckingPath path e
  end.

(** The world after a finding is reported and recorded, and after its
    notification, if any, has been attempted. *)
Definition recorded (full_url : string) (s : Z) (w : World) : World :=
  push full_url (emit (Printed (Found full_url s)) w).

Definition notified (net : Network) (self : WebScanner) (path full_url : string)
    (s : Z) (w : World) : World :=
  match webhook_url self with
  | Some hook =>
      if PyStr.nonempty hook then
        let json := finding_payload full_url s in
        emit (Printed (delivery_line path (net_post net (clock w) hook json)))
             (tick (emit (Posted hook json) w))
      else w
  | None => w
  end.

Definition reports_finding (l : line) : bool :=
  match l with
  | Found _ _ => true
  | _ => false
  end.

(** A coroutine that no answer of the world makes raise. *)
Fixpoint safe {A : Type} (p : prog A) : Prop :=
  match p with
  | Ret _ => True
  | Throw _ => False
  | AwaitGet _ k => forall r, safe (k r)
  | AwaitPost _ _ k => forall r, safe (k r)
  | Println _ k => safe k
  | Append _ k => safe k
  end.

Definition task_safe (t : task) : Prop :=
  match t with
  | Waiting body => safe body
  | Holding p => safe p
  | Finished r => r = inr tt
  end.

(** [owes us p]: the URLs [p] may still append to [found_paths] are among
    [us], each at most once. *)
Fixpoint owes {A : Type} (us : list string) (p : prog A) : Prop :=
  match p with
  | Ret _ => True
  | Throw _ => True
  | AwaitGet _ k => forall r, owes us (k r)
  | AwaitPost _ _ k => forall r, owes us (k r)
  | Println _ k => owes us k
  | Append u k => exists rest, us ≡ₚ u :: rest /\ owes rest k
  end.

Definition task_owes (us : list string) (t : task) : Prop :=
  match t with
  | Waiting body => owes us body
  | Holding p => owes us p
  | Finished _ => True
  end.

Definition is_leaf {A : Type} (p : prog A) : bool :=
  match p with
  | Ret _ | Throw _ => true
  | _ => false
  end.

(** The moves of [pool_step], one rule each. *)
Inductive pool_move (net : Network) (i : nat) (P : Pool) : Pool -> Prop :=
| move_enter (body : prog unit) (v : nat) :
    failed P = None -> tasks P !! i = Some (Waiting body) -> value P = S v ->
    pool_move net i P
      {| value := v; tasks := <[i := Holding body]> (tasks P);
         world := world P; failed := None |}
| move_leave :
    failed P = None -> tasks P !! i = Some (Holding (Ret tt)) ->
    pool_move net i P
      {| value := S (value P); tasks := <[i := Finished (inr tt)]> (tasks P);
         world := world P; failed := None |}
| move_raise (e : exn) :
    failed P = None -> tasks P !! i = Some (Holding (Throw e)) ->
    pool_move net i P
      {| value := S (value P); tasks := <[i := Finished (inl e)]> (tasks P);
         world := world P; failed := Some e |}
| move_effect (p : prog unit) :
    failed P = None -> tasks P !! i = Some (Holding p) -> is_leaf p = false ->
    pool_move net i P
      {| value := value P;
         tasks := <[i := Holding (fst (perform net p (world P)))]> (tasks P);
         world := snd (perform net p (world P)); failed := None |}.

(** The invariants of a pool: no task can raise and [gather] has raised
    nothing; the free slots and the holders add up to the size of the gate;
    what is found and what is still owed make up the URLs of the wordlist. *)
Definition pool_safe (P : Pool) : Prop :=
  Forall task_safe (tasks P) /\ failed P = None.

Definition gate (slots : nat) (P : Pool) : Prop := value P + holders P = slots.

Definition ledger (urls : list string) (P : Pool) : Prop :=
  exists owed : list (list string),
    Forall2 task_owes owed (tasks P)
    /\ found_paths (world P) ++ concat owed ≡ₚ urls.

(** Two scanners that differ in their baselines at most. *)
Definition same_settings (a b : WebScanner) : Prop :=
  url a = url b /\ wordlist a = wordlist b /\ webhook_url a = webhook_url b
  /\ max_retry a = max_retry b /\ threads a = threads b.

(** The URL a candidate is probed at, and the URLs of a whole wordlist. *)
Definition probe_url (self : WebScanner) (path : string) : string :=
  Urllib.urljoin (url self) path.

Definition probe_urls (self : WebScanner) : list string :=
  List.map (probe_url self) (wordlist self).

(** [n] slashes, and the last character of a string. *)
Definition slashes (n : nat) : string := string_of_list_ascii (repeat "/"%char n).

Fixpoint last_char (s : string) : option ascii :=
  match s with
  | EmptyString => None
  | String c EmptyString => Some c
  | String _ rest => last_char rest
  end.

Definition first_char (s : string) : option ascii :=
  match s with
  | EmptyString => None
  | String c _ => Some c
  end.

(** A wordlist entry as [load_wordlist] keeps it: not empty, no whitespace
    at either end. *)
Definition trimmed (e : string) : Prop :=
  e <> EmptyString
  /\ (forall c, first_char e = Some c -> PyStr.is_space c = false)
  /\ (forall c, last_char e = Some c -> PyStr.is_space c = false).

(** [fetches_only gets p]: [p] does nothing but GET URLs of [gets] and print
    lines that report no finding. *)
Fixpoint fetches_only {A : Type} (gets : list string) (p : prog A) : Prop :=
  match p with
  | Ret _ => True
  | Throw _ => True
  | AwaitGet u k => u ∈ gets /\ forall r, fetches_only gets (k r)
  | AwaitPost _ _ _ => False
  | Println l k => reports_finding l = false /\ fetches_only gets k
  | Append _ _ => False
  end.

(** [talks gets hooks p]: every GET of [p] goes to a URL of [gets] and every
    POST to a URL of [hooks]. *)
Fixpoint talks {A : Type} (gets hooks : list string) (p : prog A) : Prop :=
  match p with
  | Ret _ => True
  | Throw _ => True
  | AwaitGet u k => u ∈ gets /\ forall r, talks gets hooks (k r)
  | AwaitPost u _ k => u ∈ hooks /\ forall r, talks gets hooks (k r)
  | Println _ k => talks gets hooks k
  | Append _ k => talks gets hooks k
  end.

Definition task_talks (gets hooks : list string) (t : task) : Prop :=
  match t with
  | Waiting body => talks gets hooks body
  | Holding p => talks gets hooks p
  | Finished _ => True
  end.

(** The URLs the baseline detection asks for. *)
Definition baseline_urls (self : WebScanner) : list string :=
  [probe_url self EmptyString; probe_url self "nonexistentpage12345";
   probe_url self "anothernonexistent98765"].

(** The webhook a scanner posts to, if any. *)
Definition hooks (self : WebScanner) : list string :=
  match webhook_url self with
  | Some hook => if PyStr.nonempty hook then [hook] else []
  | None => []
  end.

(** [answered net u s body]: at some point the network answers a GET of [u]
    with status [s] and a text whose lower case is [body]. *)
Definition answered (net : Network) (u : string) (s : Z) (body : string) : Prop :=
  exists i response,
    net_get net i u = inr response
    /\ status_code response = s /\ PyStr.lower (text response) = body.

(** What the tasks of a pool have said to the network since [w0]: GETs for
    URLs of [gets] and POSTs to URLs of [hooks] only, now and later. *)
Definition pool_talks (gets hooks : list string) (w0 : World) (P : Pool) : Prop :=
  Forall (task_talks gets hooks) (tasks P)
  /\ (exists new, requests (trace (world P)) = requests (trace w0) ++ new
                  /\ Forall (fun u => u ∈ gets) new)
  /\ (exists new, posts (trace (world P)) = posts (trace w0) ++ new
                  /\ Forall (fun uj => fst uj ∈ hooks) new).

(** The world after the probes have run one after the other, in the order
    of the wordlist. *)
Definition probed_in_order (net : Network) (self : WebScanner) (w : World) : World :=
  fold_left (fun w path => snd (run net (limited_check self path) w))
            (wordlist self) w.

(** The last line of [scan]: the count of the findings, or that there are
    none. *)
Definition summary (w : World) : line :=
  match found_paths w with
  | [] => NoSensitiveFiles
  | _ => TotalFound (length (found_paths w))
  end.

(** [gets_at_most n p]: on no path does [p] make more than [n] GET
    requests. *)
Fixpoint gets_at_most {A : Type} (n : nat) (p : prog A) : Prop :=
  match p with
  | Ret _ => True
  | Throw _ => True
  | AwaitGet _ k =>
      match n with
      | O => False
      | S m => forall r, gets_at_most m (k r)
      end
  | AwaitPost _ _ k => forall r, gets_at_most n (k r)
  | Println _ k => gets_at_most n k
  | Append _ k => gets_at_most n k
  end.

Definition task_budget (n : nat) (t : task) : Prop :=
  match t with
  | Waiting body => gets_at_most n body
  | Holding p => gets_at_most n p
  | Finished _ => True
  end.

(** The GET requests a pool has made since [w0], and those its tasks may
    still make, stay within [total]. *)
Definition within_budget (total : nat) (w0 : World) (P : Pool) : Prop :=
  exists budgets : list nat,
    Forall2 task_budget budgets (tasks P)
    /\ length (requests (trace (world P))) + sum_list budgets
       <= length (requests (trace w0)) + total.

(** [tallied due p]: every [Found] line of [p] is followed at once by the
    append of its URL, and [p] appends nothing else; [due] is the URL of a
    [Found] line already printed whose append is the next effect of [p]. *)
Fixpoint tallied {A : Type} (due : option string) (p : prog A) : Prop :=
  match p with
  | Ret _ => due = None
  | Throw _ => due = None
  | AwaitGet _ k => due = None /\ forall r, tallied None (k r)
  | AwaitPost _ _ k => due = None /\ forall r, tallied None (k r)
  | Println l k =>
      due = None
      /\ tallied (match l with Found u _ => Some u | _ => None end) k
  | Append u k => due = Some u /\ tallied None k
  end.

Definition task_tallied (due : option string) (t : task) : Prop :=
  match t with
  | Waiting body => tallied due body
  | Holding p => tallied due p
  | Finished _ => due = None
  end.

(** The findings reported since [w0] are those recorded together with those
    whose append is due. *)
Definition tally (w0 : World) (P : Pool) : Prop :=
  exists (dues : list (option string)) (t : list event),
    Forall2 task_tallied dues (tasks P)
    /\ trace (world P) = trace w0 ++ t
    /\ found_paths (world P) ++ omap id dues ≡ₚ (findings t).*1.

(** ** Scenarios

    The site of the specification's scenarios: the root answers 200 with
    "home page", unknown paths answer 404 with "not found error", [admin]
    answers 200 with the home page again and [backup.zip] answers 200 with
    "archive contents xyz". *)

Module Scenario.

Definition answer (s : Z) (t : string) : exn + Response :=
  inr {| status_code := s; text := t |}.

Definition pages (u : string) : exn + Response :=
  if String.eqb u "http://h" then answer 200 "Home Page"
  else if String.eqb u "http://h/admin" then answer 200 "home page"
  else if String.eqb u "http://h/backup.zip" then answer 200 "Archive contents XYZ"
  else if String.eqb u "http://h/old" then answer 503 "unavailable"
  else answer 404 "Not Found error".

(** The site, with a webhook that accepts every notification. *)
Definition site : Network :=
  {| net_get := fun _ u => pages u;
     net_post := fun _ _ _ => answer 204 "" |}.

(** The same site with the webhook out of reach. *)
Definition site_hook_down : Network :=
  {| net_get := fun _ u => pages u;
     net_post := fun _ _ _ => inl RequestError |}.

(** The same site, with a first attempt that times out on every page. *)
Definition flaky : Network :=
  {| net_get := fun n u => if Nat.even n then inl RequestError else pages u;
     net_post := fun _ _ _ => answer 204 "" |}.

(** A host that never answers. *)
Definition dead : Network :=
  {| net_get := fun _ _ => inl RequestError;
     net_post := fun _ _ _ => inl RequestError |}.

(** A client that fails with an exception that is no [RequestError]. *)
Definition broken : Network :=
  {| net_get := fun _ _ => inl OtherException;
     net_post := fun _ _ _ => inl OtherException |}.

(** A site whose root answers 204. *)
Definition no_content : Network :=
  {| net_get := fun _ _ => answer 204 "";
     net_post := fun _ _ _ => answer 204 "" |}.

Definition start : World := {| clock := 0; found_paths := []; trace := [] |}.

(** A scanner as [main] builds it, and the same once the baselines of
    [site] are known. *)
Definition scanner (words : list string) (webhook : option string)
    (max_retry threads : Z) : WebScanner :=
  new_scanner "http://h/" (Some words) webhook max_retry threads.

Definition ready (words : list string) (webhook : option string)
    (max_retry threads : Z) : WebScanner :=
  set_not_found
    (set_index (scanner words webhook max_retry threads) (Some "home page"))
    (Some "not found error").

(** The pool a scan dispatches, or an empty one when it dispatches none. *)
Definition dispatched (s : started) : Pool :=
  match s with
  | Dispatched _ P => P
  | Aborted w | Crashed _ w =>
      {| value := 0; tasks := []; world := w; failed := None |}
  end.

(** [k] rounds over [n] tasks, in order. *)
Definition round_robin (n k : nat) : list nat := concat (repeat (seq 0 n) k).

End Scenario.

(** * Verification *)

(** * Facts about Python strings *)

Lemma append_cons (c : ascii) (a b : string) :
  String c a +:+ b = String c (a +:+ b).
Proof. reflexivity. Qed.

Lemma append_nil (b : string) : EmptyString +:+ b = b.
Proof. reflexivity. Qed.

Lemma list_ascii_app (a b : string) :
  list_ascii_of_string (a +:+ b) = list_ascii_of_string a ++ list_ascii_of_string b.
Proof.
  induction a as [|c a IH]; [done|].
  rewrite append_cons. simpl. by rewrite IH.
Qed.

Lemma append_empty_r (a : string) : a +:+ EmptyString = a.
Proof. induction a as [|c a IH]; [done|]. by rewrite append_cons, IH. Qed.

Lemma append_assoc (a b c : string) : (a +:+ b) +:+ c = a +:+ (b +:+ c).
Proof. induction a as [|x a IH]; [done|]. by rewrite !append_cons, IH. Qed.

Lemma append_snoc_nonempty (a : string) (c : ascii) :
  a +:+ String c EmptyString <> EmptyString.
Proof. destruct a; discriminate. Qed.

Lemma flush_clean (tok : string) :
  PyStr.no_space tok -> Forall PyStr.clean (PyStr.flush tok).
Proof.
  intros H. destruct tok as [|c tok]; simpl; [constructor|].
  constructor; [|constructor]. split; [discriminate | exact H].
Qed.

Lemma split_from_clean (s tok : string) :
  PyStr.no_space tok -> Forall PyStr.clean (PyStr.split_from tok s).
Proof.
  revert tok. induction s as [|c s IH]; intros tok Htok; simpl.
  - by apply flush_clean.
  - destruct (PyStr.is_space c) eqn:Hc.
    + apply Forall_app. split; [by apply flush_clean|].
      apply IH. constructor.
    + apply IH. unfold PyStr.no_space. rewrite list_ascii_app.
      apply Forall_app. split; [exact Htok|].
      simpl. constructor; [exact Hc | constructor].
Qed.

(** Every token of [s.split()] is a non-empty run without whitespace. *)
Lemma split_clean (s : string) : Forall PyStr.clean (PyStr.split s).
Proof. apply split_from_clean. constructor. Qed.

Lemma split_from_run (t rest tok : string) :
  PyStr.no_space t ->
  PyStr.split_from tok (t +:+ rest) = PyStr.split_from (tok +:+ t) rest.
Proof.
  revert tok. induction t as [|c t IH]; intros tok Ht; simpl.
  - by rewrite append_empty_r.
  - inversion Ht as [|? ? Hc Ht']; subst. rewrite Hc.
    rewrite IH by exact Ht'. by rewrite append_assoc.
Qed.

(** Splitting undoes the joining of clean tokens by single spaces. *)
Lemma split_join (ts : list string) :
  Forall PyStr.clean ts -> PyStr.split (String.concat " " ts) = ts.
Proof.
  unfold PyStr.split. induction 1 as [|t ts [Hne Ht] Hts IH]; [done|].
  destruct ts as [|t' ts].
  - simpl. rewrite <- (append_empty_r t) at 1.
    rewrite split_from_run by exact Ht. simpl.
    destruct t; [done | reflexivity].
  - change (String.concat " " (t :: t' :: ts))
      with (t +:+ (String " " (String.concat " " (t' :: ts)))).
    rewrite split_from_run by exact Ht.
    cbn [PyStr.split_from]. change (PyStr.is_space " ") with true. cbn iota.
    rewrite IH. simpl. destruct t; [done | reflexivity].
Qed.

(** * The similarity classifier *)

Lemma word_set_tokens (s : string) : word_set s = list_to_set (Spec.tokens s).
Proof.
  unfold word_set, Spec.tokens. apply set_eq. intros t.
  rewrite !elem_of_list_to_set. by rewrite elem_of_remove_dups.
Qed.

Lemma size_common (a b : string) :
  size (word_set a ∩ word_set b)
  = length (Spec.common (Spec.tokens a) (Spec.tokens b)).
Proof.
  rewrite !word_set_tokens. unfold Spec.common.
  rewrite <- (size_list_to_set (C := gset string)).
  - f_equal. apply set_eq. intros t.
    rewrite elem_of_intersection, !elem_of_list_to_set, list_elem_of_filter.
    tauto.
  - apply NoDup_filter, NoDup_remove_dups.
Qed.

Lemma size_either (a b : string) :
  size (word_set a ∪ word_set b)
  = length (Spec.either (Spec.tokens a) (Spec.tokens b)).
Proof.
  rewrite !word_set_tokens. unfold Spec.either.
  rewrite <- (size_list_to_set (C := gset string)).
  - f_equal. apply set_eq. intros t.
    rewrite elem_of_union, !elem_of_list_to_set, elem_of_app, list_elem_of_filter.
    destruct (decide (t ∈ Spec.tokens a)); tauto.
  - apply NoDup_app. split; [apply NoDup_remove_dups|]. split.
    + intros t Ha Hb. apply list_elem_of_filter in Hb. tauto.
    + apply NoDup_filter, NoDup_remove_dups.
Qed.

Lemma similarity_unfold (a b : string) :
  similarity a b =
  match size (word_set a ∪ word_set b) with
  | O => 0%Q
  | S _ => (Z.of_nat (size (word_set a ∩ word_set b))
            # Pos.of_nat (size (word_set a ∪ word_set b)))%Q
  end.
Proof.
  unfold similarity. case_bool_decide as Hu.
  - rewrite Hu. by rewrite size_empty.
  - destruct (size (word_set a ∪ word_set b)) eqn:Hs; [|done].
    apply size_empty_iff in Hs. apply leibniz_equiv in Hs. done.
Qed.

Lemma similarity_jaccard (a b : string) : similarity a b = Spec.jaccard a b.
Proof.
  rewrite similarity_unfold. unfold Spec.jaccard.
  by rewrite size_common, size_either.
Qed.

Lemma similarity_sym (a b : string) : similarity a b = similarity b a.
Proof.
  unfold similarity.
  pose proof (intersection_comm_L (word_set a) (word_set b)) as Hi.
  pose proof (union_comm_L (word_set a) (word_set b)) as Hu.
  by rewrite Hi, Hu.
Qed.

Lemma word_set_empty (s : string) : word_set s = ∅ <-> PyStr.split s = [].
Proof.
  unfold word_set. split.
  - intros H. destruct (PyStr.split s) as [|t ts]; [done|].
    exfalso. assert (t ∈ (∅ : gset string)) as Hin by (rewrite <- H; set_solver).
    set_solver.
  - intros ->. done.
Qed.

Lemma similarity_same (a : string) :
  PyStr.split a <> [] -> (similarity a a == 1)%Q.
Proof.
  intros Hne. rewrite similarity_unfold.
  pose proof (union_idemp_L (word_set a)) as Hu.
  pose proof (intersection_idemp_L (word_set a)) as Hi.
  rewrite Hu, Hi.
  destruct (size (word_set a)) eqn:Hs.
  - apply size_empty_iff in Hs. apply leibniz_equiv in Hs.
    by apply word_set_empty in Hs.
  - unfold Qeq. simpl. lia.
Qed.

Lemma similarity_no_tokens (a b : string) :
  PyStr.split a = [] -> PyStr.split b = [] -> similarity a b = 0%Q.
Proof.
  intros Ha Hb. unfold similarity.
  apply word_set_empty in Ha, Hb. rewrite Ha, Hb.
  rewrite union_idemp_L. by rewrite bool_decide_eq_true_2.
Qed.

Lemma similarity_disjoint (a b : string) :
  (forall t, t ∈ PyStr.split a -> t ∉ PyStr.split b) ->
  (similarity a b == 0)%Q.
Proof.
  intros Hd. rewrite similarity_unfold.
  assert (word_set a ∩ word_set b = ∅) as ->.
  { unfold word_set. apply set_eq. intros t.
    rewrite elem_of_intersection, !elem_of_list_to_set.
    split; [|set_solver]. intros [Ha Hb]. by destruct (Hd t Ha). }
  rewrite size_empty. destruct (size _); [reflexivity|]. unfold Qeq. simpl. lia.
Qed.

Lemma exceeds_threshold_iff (x : Q) :
  exceeds_threshold x = true <-> (8 # 10 < x)%Q.
Proof.
  unfold exceeds_threshold. rewrite negb_true_iff.
  rewrite <- not_true_iff_false, Qle_bool_iff. split.
  - apply Qnot_le_lt.
  - apply Qlt_not_le.
Qed.

Lemma similarity_empty_reference (content : string) :
  exceeds_threshold (similarity content EmptyString) = false.
Proof.
  rewrite similarity_unfold.
  assert (word_set EmptyString = ∅) as -> by done.
  pose proof (intersection_empty_r_L (word_set content)) as Hi. rewrite Hi.
  rewrite size_empty. destruct (size _); reflexivity.
Qed.

Lemma matches_iff (content : string) (ref : option string) :
  matches content ref = true
  <-> exists r, ref = Some r /\ (8 # 10 < similarity content r)%Q.
Proof.
  unfold matches. destruct ref as [r|].
  - rewrite andb_true_iff, exceeds_threshold_iff. split.
    + intros [_ H]. eauto.
    + intros (r' & [= <-] & H). split; [|done].
      destruct r; [|done]. exfalso.
      apply exceeds_threshold_iff in H.
      by rewrite similarity_empty_reference in H.
  - split; [done | intros (r & [=] & _)].
Qed.

(** C2. [is_similar_to_index_or_404] answers [True] exactly when the
    similarity of the body to the index baseline exceeds 0.8, or the
    not-found baseline is present and the similarity to it exceeds 0.8;
    with both baselines absent it answers [False] for every body. *)
Theorem is_duplicate_iff_exceeds_threshold (content : string) :
  (forall self : Baseline,
     is_similar_to_index_or_404 self content = true
     <-> (exists i, index_content self = Some i
                    /\ (8 # 10 < similarity content i)%Q)
         \/ (exists n, not_found_content self = Some n
                       /\ (8 # 10 < similarity content n)%Q))
  /\ is_similar_to_index_or_404
       {| index_content := None; not_found_content := None |} content = false.
Proof.
  split; [|reflexivity].
  intros self. unfold is_similar_to_index_or_404.
  rewrite <- !matches_iff.
  destruct (matches content (index_content self)),
           (matches content (not_found_content self)); intuition congruence.
Qed.

(** C3, as stated, fails on the empty string: it has no token, the union is
    empty, and the similarity of the string to itself is 0. *)
Lemma similarity_identical_counterexample :
  ~ (forall a : string, (similarity a a == 1)%Q).
Proof. intros H. specialize (H EmptyString). vm_compute in H. discriminate. Qed.

(** C3 (amended). [similarity] is the Jaccard overlap of the two sets of
    whitespace-delimited tokens, 0 when neither string has a token; it is 1
    for identical strings that have at least one token, 0 for strings with
    disjoint token sets, and symmetric. *)
Theorem similarity_jaccard_properties (a b : string) :
  similarity a b = Spec.jaccard a b
  /\ (word_set a ∪ word_set b = ∅ -> similarity a b = 0%Q)
  /\ (word_set a <> ∅ -> (similarity a a == 1)%Q)
  /\ (word_set a ∩ word_set b = ∅ -> (similarity a b == 0)%Q)
  /\ similarity a b = similarity b a.
Proof.
  split; [apply similarity_jaccard|].
  split. { intros Hu. unfold similarity. by rewrite Hu, bool_decide_eq_true_2. }
  split. { intros Hne. apply similarity_same. by rewrite <- word_set_empty. }
  split; [|apply similarity_sym].
  intros Hd. rewrite similarity_unfold, Hd, size_empty.
  destruct (size _); [reflexivity|]. unfold Qeq. simpl. lia.
Qed.

Lemma similarity_jaccard_properties_witness :
  (similarity "home page" "home page" == 1)%Q
  /\ (similarity "home page" "archive contents xyz" == 0)%Q
  /\ similarity " " "" = 0%Q.
Proof.
  destruct (similarity_jaccard_properties "home page" "archive contents xyz")
    as (_ & _ & Hsame & Hdisj & _).
  destruct (similarity_jaccard_properties " " "") as (_ & Hnone & _).
  split; [apply Hsame; vm_compute; discriminate|].
  split; [apply Hdisj; vm_compute; reflexivity|].
  apply Hnone. vm_compute. reflexivity.
Defined.

(** * The prober *)

Lemma requests_snoc (t : list event) (ev : event) :
  requests (t ++ [ev])
  = requests t ++ match ev with Requested u => [u] | _ => [] end.
Proof. unfold requests. rewrite omap_app. by destruct ev. Qed.

Lemma range_seq (m : Z) :
  (0 <= m)%Z -> range (m + 1) = List.map Z.of_nat (seq 0 (S (Z.to_nat m))).
Proof. intros Hm. unfold range. do 2 f_equal. lia. Qed.

Lemma range_negative (m : Z) : (m < 0)%Z -> range (m + 1) = [].
Proof.
  intros Hm. unfold range. replace (Z.to_nat (m + 1)) with 0 by lia. done.
Qed.

Section AttemptLoop.

Variable net : Network.
Variable self : WebScanner.
Variable full_url : string.

(** All [n] attempts fail at transport level: [n] requests, then
    [(None, None)]. *)
Lemma attempt_loop_all_fail (n j : nat) (w : World) :
  ends_at (max_retry self) j n ->
  (forall i, i < n -> net_get net (clock w + i) full_url = inl RequestError) ->
  exists w',
    run net (attempt_loop self full_url (attempts_from j n)) w
      = (inr (Pair None None), w')
    /\ requests (trace w') = requests (trace w) ++ repeat full_url n
    /\ clock w' = clock w + n
    /\ found_paths w' = found_paths w.
Proof.
  revert j w. induction n as [|n IH]; intros j w [Hn Hend] Hfail; [lia|].
  cbn [attempts_from seq List.map attempt_loop run].
  assert (net_get net (clock w) full_url = inl RequestError) as ->
    by (rewrite <- (Nat.add_0_r (clock w)); apply Hfail; lia).
  cbn [is_RequestError].
  destruct (Z.ltb_spec (Z.of_nat j) (max_retry self)) as [Hlt|Hge].
  - destruct (IH (S j) (emit (Printed (AttemptFailed (Z.of_nat j + 1) full_url))
                          (tick (emit (Requested full_url) w))))
      as (w' & Hrun & Hreq & Hclock & Hfound).
    + split; lia.
    + intros i Hi. cbn [emit tick clock].
      replace (S (clock w) + i) with (clock w + S i) by lia. apply Hfail. lia.
    + exists w'. cbn [run]. fold (attempts_from (S j) n). rewrite Hrun.
      split; [done|]. rewrite Hreq, Hclock, Hfound. cbn [emit tick clock trace found_paths].
      rewrite !requests_snoc, app_nil_r, <- app_assoc.
      split; [|split]; [|lia|done]. done.
  - assert (n = 0) as -> by lia.
    eexists. cbn [run]. split; [reflexivity|].
    cbn [emit tick clock trace found_paths].
    rewrite !requests_snoc, app_nil_r. split; [|split]; [done|lia|done].
Qed.

(** The first [k] attempts fail at transport level and the next one is
    answered: [k + 1] requests, and the answer is returned. *)
Lemma attempt_loop_response (n j k : nat) (w : World) (response : Response) :
  ends_at (max_retry self) j n -> k < n ->
  (forall i, i < k -> net_get net (clock w + i) full_url = inl RequestError) ->
  net_get net (clock w + k) full_url = inr response ->
  exists w',
    run net (attempt_loop self full_url (attempts_from j n)) w
      = (inr (Pair (Some (status_code response))
                   (Some (PyStr.lower (text response)))), w')
    /\ requests (trace w') = requests (trace w) ++ repeat full_url (S k)
    /\ clock w' = clock w + S k
    /\ found_paths w' = found_paths w.
Proof.
  revert n j w. induction k as [|k IH]; intros n j w [Hn Hend] Hk Hfail Hresp.
  - destruct n as [|n]; [lia|].
    cbn [attempts_from seq List.map attempt_loop run].
    rewrite Nat.add_0_r in Hresp. rewrite Hresp.
    eexists. split; [reflexivity|]. cbn [emit tick clock trace found_paths].
    rewrite requests_snoc. split; [|split]; [done|lia|done].
  - destruct n as [|n]; [lia|].
    cbn [attempts_from seq List.map attempt_loop run].
    assert (net_get net (clock w) full_url = inl RequestError) as ->
    by (rewrite <- (Nat.add_0_r (clock w)); apply Hfail; lia).
    cbn [is_RequestError].
    destruct (Z.ltb_spec (Z.of_nat j) (max_retry self)) as [Hlt|Hge]; [|lia].
    destruct (IH n (S j) (emit (Printed (AttemptFailed (Z.of_nat j + 1) full_url))
                          (tick (emit (Requested full_url) w))))
      as (w' & Hrun & Hreq & Hclock & Hfound).
    + split; lia.
    + lia.
    + intros i Hi. cbn [emit tick clock].
      replace (S (clock w) + i) with (clock w + S i) by lia. apply Hfail. lia.
    + cbn [emit tick clock].
      replace (S (clock w) + k) with (clock w + S k) by lia. exact Hresp.
    + exists w'. cbn [run]. fold (attempts_from (S j) n). rewrite Hrun.
      split; [done|]. rewrite Hreq, Hclock, Hfound. cbn [emit tick clock trace found_paths].
      rewrite !requests_snoc, app_nil_r, <- app_assoc.
      split; [|split]; [|lia|done]. done.
Qed.

(** Whatever the network does, a loop of at least one attempt that ends at
    [max_retry] leaves with a pair or with an exception of the client that
    is no [RequestError]; it never falls through. *)
Lemma attempt_loop_returns_pair (n j : nat) (w : World) :
  ends_at (max_retry self) j n ->
  (exists status content,
      fst (run net (attempt_loop self full_url (attempts_from j n)) w)
        = inr (Pair status content)
      /\ ((status = None /\ content = None)
          \/ (exists s c, status = Some s /\ content = Some c)))
  \/ (exists e i,
        fst (run net (attempt_loop self full_url (attempts_from j n)) w) = inl e
        /\ is_RequestError e = false
        /\ net_get net i full_url = inl e).
Proof.
  revert j w. induction n as [|n IH]; intros j w [Hn Hend]; [lia|].
  cbn [attempts_from seq List.map attempt_loop run].
  destruct (net_get net (clock w) full_url) as [e|response] eqn:Hget.
  - destruct (is_RequestError e) eqn:He.
    + destruct (Z.ltb_spec (Z.of_nat j) (max_retry self)) as [Hlt|Hge].
      * cbn [run]. apply IH. split; lia.
      * left. exists None, None. cbn [run fst]. eauto.
    + right. exists e, (clock w). cbn [run fst]. eauto.
  - left. do 2 eexists. cbn [run fst]. split; [reflexivity|]. right. eauto.
Qed.

End AttemptLoop.

Lemma get_page_content_unfold (self : WebScanner) (path : string) :
  (0 <= max_retry self)%Z ->
  get_page_content self path
  = attempt_loop self (Urllib.urljoin (url self) path)
      (attempts_from 0 (S (Z.to_nat (max_retry self))))
    /\ ends_at (max_retry self) 0 (S (Z.to_nat (max_retry self))).
Proof.
  intros Hm. unfold get_page_content. rewrite range_seq by exact Hm.
  split; [reflexivity|]. split; lia.
Qed.

Lemma get_page_content_negative (self : WebScanner) (path : string) :
  (max_retry self < 0)%Z -> get_page_content self path = Ret NoValue.
Proof.
  intros Hm. unfold get_page_content. by rewrite range_negative.
Qed.

(** C5, as stated, fails for a negative retry limit: with [max_retry = -1]
    the loop makes none of its attempts, so all of them fail, and the fetch
    returns [None], which is no [(None, None)]. *)
Lemma fetch_negative_retry_counterexample :
  let self := Scenario.scanner ["old"]%string None (-1) 5 in
  let fetch := run Scenario.dead (get_page_content self "old") Scenario.start in
  fst fetch = inr NoValue
  /\ fst fetch <> inr (Pair None None)
  /\ requests (trace (snd fetch)) = [].
Proof. vm_compute. repeat split. discriminate. Qed.

(** C5 (amended). For a [plain] target and path and a retry limit that is a
    count ([max_retry >= 0]), a fetch whose attempts all fail at transport
    level makes exactly [max_retry + 1] requests and returns [(None, None)];
    an attempt that is answered, with whatever status, ends the fetch: the
    answer is returned and no further request is made. *)
Theorem fetch_retry_policy (net : Network) (self : WebScanner) (path : string)
    (w : World) :
  Urllib.plain (url self) = true -> Urllib.plain path = true ->
  (0 <= max_retry self)%Z ->
  let full_url := Urllib.urljoin (url self) path in
  let limit := Z.to_nat (max_retry self) in
  ((forall i, i <= limit ->
              net_get net (clock w + i) full_url = inl RequestError) ->
   exists w',
     run net (get_page_content self path) w = (inr (Pair None None), w')
     /\ requests (trace w') = requests (trace w) ++ repeat full_url (limit + 1))
  /\ (forall k response,
        k <= limit ->
        (forall i, i < k ->
                   net_get net (clock w + i) full_url = inl RequestError) ->
        net_get net (clock w + k) full_url = inr response ->
        exists w',
          run net (get_page_content self path) w
            = (inr (Pair (Some (status_code response))
                         (Some (PyStr.lower (text response)))), w')
          /\ requests (trace w') = requests (trace w) ++ repeat full_url (k + 1)).
Proof.
  intros _ _ Hm full_url limit.
  destruct (get_page_content_unfold self path Hm) as [-> Hend]. split.
  - intros Hfail.
    destruct (attempt_loop_all_fail net self full_url _ 0 w Hend)
      as (w' & Hrun & Hreq & _).
    { intros i Hi. apply Hfail. unfold limit. lia. }
    exists w'. split; [exact Hrun|]. rewrite Hreq. do 2 f_equal. unfold limit. lia.
  - intros k response Hk Hfail Hresp.
    destruct (attempt_loop_response net self full_url _ 0 k w response Hend)
      as (w' & Hrun & Hreq & _); [unfold limit in Hk; lia | exact Hfail | exact Hresp |].
    exists w'. split; [exact Hrun|]. rewrite Hreq. do 2 f_equal. lia.
Qed.

(** C10, as stated, fails with [max_retry >= 0] when the client raises an
    exception that is no [RequestError]: the handler of the loop does not
    catch it, and the fetch raises it instead of returning a pair. *)
Lemma fetch_unexpected_exception_counterexample :
  let self := Scenario.scanner ["old"]%string None 3 5 in
  let fetch := run Scenario.broken (get_page_content self "old") Scenario.start in
  (0 <= max_retry self)%Z
  /\ fst fetch = inl OtherException
  /\ (forall status content, fst fetch <> inr (Pair status content))
  /\ requests (trace (snd fetch)) = ["http://h/old"]%string.
Proof.
  vm_compute. split; [discriminate|]. split; [reflexivity|].
  split; [discriminate | reflexivity].
Qed.

(** C10 (amended). For a [plain] target and path: with [max_retry >= 0] the
    fetch never falls through its loop: it returns a pair, [(None, None)] or
    a status with a body, unless the client raises an exception that is no
    [RequestError], which leaves the function; so it returns a pair whenever
    the client raises nothing else.  With [max_retry < 0] the loop runs zero
    times, the fetch makes no request and returns [None], and the callers
    fail at the unpacking: [detect_index_and_404] raises [TypeError], which
    ends [scan], and [check_path] ends in its handler. *)
Theorem fetch_total_iff_retry_nonnegative (net : Network) (self : WebScanner)
    (path : string) (w : World) :
  Urllib.plain (url self) = true -> Urllib.plain path = true ->
  ((0 <= max_retry self)%Z ->
     ((exists status content,
         fst (run net (get_page_content self path) w) = inr (Pair status content)
         /\ ((status = None /\ content = None)
             \/ (exists s c, status = Some s /\ content = Some c)))
      \/ (exists e i,
            fst (run net (get_page_content self path) w) = inl e
            /\ is_RequestError e = false
            /\ net_get net i (Urllib.urljoin (url self) path) = inl e))
     /\ ((forall i u e, net_get net i u = inl e -> e = RequestError) ->
         exists status content,
           fst (run net (get_page_content self path) w) = inr (Pair status content)))
  /\ ((max_retry self < 0)%Z ->
        run net (get_page_content self path) w = (inr NoValue, w)
        /\ unpack NoValue = Throw TypeError
        /\ run net (detect_index_and_404 self) w = (inl TypeError, w)
        /\ scan_start net self w
           = Crashed TypeError (emit (Printed (ErrorDuringScan TypeError)) w)
        /\ run net (check_path self path) w
           = (inr tt, emit (Printed (ErrorCheckingPath path TypeError)) w)).
Proof.
  intros _ _. split.
  - intros Hm. destruct (get_page_content_unfold self path Hm) as [-> Hend].
    pose proof (attempt_loop_returns_pair net self
                  (Urllib.urljoin (url self) path) _ 0 w Hend) as Hcases.
    split; [exact Hcases|].
    intros Honly. destruct Hcases as [(st & c & Hr & _)|(e & i & _ & He & Hget)].
    + eauto.
    + apply Honly in Hget. subst e. discriminate.
  - intros Hm.
    assert (run net (detect_index_and_404 self) w = (inl TypeError, w)) as Hdetect.
    { unfold detect_index_and_404.
      rewrite (get_page_content_negative self EmptyString Hm). reflexivity. }
    split; [by rewrite (get_page_content_negative self path Hm)|].
    split; [reflexivity|]. split; [exact Hdetect|]. split.
    + unfold scan_start. by rewrite Hdetect.
    + unfold check_path. rewrite (get_page_content_negative self path Hm).
      reflexivity.
Qed.

(** * Running coroutines *)

Lemma run_bind {A B : Type} (net : Network) (p : prog A) (f : A -> prog B)
    (w : World) :
  run net (p ≫= f) w
  = match run net p w with
    | (inr a, w') => run net (f a) w'
    | (inl e, w') => (inl e, w')
    end.
Proof.
  change (p ≫= f) with (bind p f).
  revert w. induction p as [a|e|u k IH|u j k IH|l k IH|u k IH]; intros w;
    cbn [bind run]; auto.
Qed.

Lemma run_try_except {A : Type} (net : Network) (p : prog A)
    (caught : exn -> bool) (handler : exn -> prog A) (w : World) :
  run net (try_except p caught handler) w
  = match run net p w with
    | (inl e, w') => if caught e then run net (handler e) w' else (inl e, w')
    | (inr a, w') => (inr a, w')
    end.
Proof.
  revert w. induction p as [a|e|u k IH|u j k IH|l k IH|u k IH]; intros w;
    cbn [try_except run]; auto.
  destruct (caught e); reflexivity.
Qed.

Lemma posts_snoc (t : list event) (ev : event) :
  posts (t ++ [ev])
  = posts t ++ match ev with Posted u j => [(u, j)] | _ => [] end.
Proof. unfold posts. rewrite omap_app. by destruct ev. Qed.

Lemma findings_snoc (t : list event) (ev : event) :
  findings (t ++ [ev])
  = findings t ++ match ev with Printed (Found u s) => [(u, s)] | _ => [] end.
Proof. unfold findings. rewrite omap_app. destruct ev as [| |[]]; reflexivity. Qed.

Lemma fetch_frame_refl (u : string) (w : World) : fetch_frame u w w.
Proof. repeat split. exists 0. by rewrite app_nil_r. Qed.

Lemma fetch_frame_get (u : string) (w w' : World) :
  fetch_frame u (tick (emit (Requested u) w)) w' -> fetch_frame u w w'.
Proof.
  intros (Hf & Hp & Hg & [n Hr]). cbn [tick emit found_paths trace] in *.
  rewrite posts_snoc, app_nil_r in Hp. rewrite findings_snoc, app_nil_r in Hg.
  rewrite requests_snoc, <- app_assoc in Hr.
  repeat split; try done. by exists (S n).
Qed.

Lemma fetch_frame_print (u : string) (l : line) (w w' : World) :
  match l with Found _ _ => False | _ => True end ->
  fetch_frame u (emit (Printed l) w) w' -> fetch_frame u w w'.
Proof.
  intros Hl (Hf & Hp & Hg & [n Hr]). cbn [emit found_paths trace] in *.
  rewrite posts_snoc, app_nil_r in Hp. rewrite requests_snoc, app_nil_r in Hr.
  rewrite findings_snoc in Hg.
  repeat split; try done; [|by exists n].
  destruct l; try done; by rewrite app_nil_r in Hg.
Qed.

(** A fetch, whatever the network does, leaves the shared list, the
    notifications and the findings alone, and requests one URL only. *)
Lemma attempt_loop_frame (net : Network) (self : WebScanner)
    (full_url : string) (attempts : list Z) (w : World) :
  fetch_frame full_url w (snd (run net (attempt_loop self full_url attempts) w)).
Proof.
  revert w. induction attempts as [|attempt rest IH]; intros w.
  - apply fetch_frame_refl.
  - cbn [attempt_loop run]. apply fetch_frame_get.
    destruct (net_get net (clock w) full_url) as [e|response];
      [|apply fetch_frame_refl].
    destruct (is_RequestError e); [|apply fetch_frame_refl].
    destruct (attempt <? max_retry self)%Z; cbn [run].
    + eapply fetch_frame_print; [|apply IH]. exact I.
    + eapply fetch_frame_print; [|apply fetch_frame_refl]. exact I.
Qed.

Lemma attempt_loop_shape (net : Network) (self : WebScanner)
    (full_url : string) (attempts : list Z) (w : World) :
  fetch_shape (fst (run net (attempt_loop self full_url attempts) w)).
Proof.
  revert w. induction attempts as [|attempt rest IH]; intros w; [exact I|].
  cbn [attempt_loop run].
  destruct (net_get net (clock w) full_url) as [e|response]; [|exact I].
  destruct (is_RequestError e) eqn:He; [|exact He].
  destruct (attempt <? max_retry self)%Z; cbn [run]; [apply IH | exact I].
Qed.

Lemma get_page_content_frame (net : Network) (self : WebScanner)
    (path : string) (w : World) :
  fetch_frame (Urllib.urljoin (url self) path) w
              (snd (run net (get_page_content self path) w)).
Proof. apply attempt_loop_frame. Qed.

Lemma get_page_content_shape (net : Network) (self : WebScanner)
    (path : string) (w : World) :
  fetch_shape (fst (run net (get_page_content self path) w)).
Proof. apply attempt_loop_shape. Qed.

(** * The probe *)

Lemma in_success_range_iff (s : Z) :
  in_success_range s = ((200 <=? s)%Z && (s <=? 299)%Z).
Proof.
  unfold in_success_range.
  destruct (Z.eqb_spec s 0), (Z.leb_spec 200 s), (Z.ltb_spec s 300),
           (Z.leb_spec s 299); cbn; try reflexivity; lia.
Qed.

(** The notification step of a probe, under the handler of [check_path]:
    every way the delivery can go ends the probe normally, with one line. *)
Lemma notify_run (net : Network) (self : WebScanner) (path full_url : string)
    (s : Z) (w : World) :
  match run net (if truthy (webhook_url self)
                 then send_discord_webhook self full_url s else Ret tt) w with
  | (inl e, w') =>
      if is_Exception e then run net (print (ErrorCheckingPath path e)) w'
      else (inl e, w')
  | (inr a, w') => (inr a, w')
  end = (inr tt, notified net self path full_url s w).
Proof.
  unfold send_discord_webhook, notified, truthy.
  destruct (webhook_url self) as [hook|]; [|reflexivity].
  destruct (PyStr.nonempty hook); [|reflexivity]. cbn [negb].
  rewrite run_try_except. unfold client_post, delivery_line.
  rewrite run_bind. cbn [run].
  destruct (net_post net (clock w) hook (finding_payload full_url s))
    as [e|response]; cbn [raise_or_return run].
  - destruct e; reflexivity.
  - destruct (status_code response =? 204)%Z; reflexivity.
Qed.

(** The probe of a genuine page: the finding is reported, its URL is
    appended, and the notification, if a webhook is set, is attempted. *)
Lemma check_path_genuine (net : Network) (self : WebScanner) (path : string)
    (w : World) (s : Z) :
  genuine self (fst (run net (get_page_content self path) w)) = Some s ->
  run net (check_path self path) w
  = (inr tt,
     notified net self path (Urllib.urljoin (url self) path) s
       (recorded (Urllib.urljoin (url self) path) s
          (snd (run net (get_page_content self path) w)))).
Proof.
  intros Hgen. unfold check_path. rewrite run_try_except, run_bind.
  destruct (run net (get_page_content self path) w) as [[e|r] w1];
    [discriminate|].
  cbn [fst snd] in *. destruct r as [|[s'|] [c|]]; try discriminate.
  cbn [genuine] in Hgen. rewrite <- in_success_range_iff in Hgen.
  cbn [unpack]. rewrite run_bind. cbn [run].
  destruct (in_success_range s') eqn:Hrange; [|discriminate].
  cbn [classify]. rewrite run_bind. cbn [run].
  destruct (is_similar_to_index_or_404 (baseline self) c); [discriminate|].
  injection Hgen as ->. cbn [negb run].
  apply (notify_run net self path).
Qed.

(** Any other probe ends without a finding: at most one line is printed, and
    it reports none. *)
Lemma check_path_not_genuine (net : Network) (self : WebScanner)
    (path : string) (w : World) :
  genuine self (fst (run net (get_page_content self path) w)) = None ->
  exists w2,
    run net (check_path self path) w = (inr tt, w2)
    /\ (w2 = snd (run net (get_page_content self path) w)
        \/ exists l, reports_finding l = false
                     /\ w2 = emit (Printed l)
                               (snd (run net (get_page_content self path) w))).
Proof.
  intros Hgen. unfold check_path. rewrite run_try_except, run_bind.
  pose proof (get_page_content_shape net self path w) as Hshape.
  destruct (run net (get_page_content self path) w) as [[e|r] w1];
    cbn [fst snd] in *.
  { eexists. split; [reflexivity|]. right. eexists. split; [|reflexivity]. done. }
  destruct r as [|[s|] [c|]]; try done; cbn [unpack]; rewrite ?run_bind; cbn [run].
  - eexists. split; [reflexivity|]. right. eexists. split; [|reflexivity]. done.
  - cbn [genuine] in Hgen. rewrite <- in_success_range_iff in Hgen.
    destruct (in_success_range s).
    + cbn [classify]. rewrite run_bind. cbn [run].
      destruct (is_similar_to_index_or_404 (baseline self) c); [|discriminate].
      cbn [negb print run]. eexists. split; [reflexivity|].
      right. eexists. split; [|reflexivity]. done.
    + destruct (s =? 0)%Z; cbn [negb print run].
      * eexists. split; [reflexivity|]. by left.
      * eexists. split; [reflexivity|]. right. eexists. split; [|reflexivity]. done.
  - eexists. split; [reflexivity|]. by left.
Qed.

(** C1, as stated, fails without a webhook URL: the probe of [backup.zip]
    on the site of the scenarios is genuine, its URL is recorded, and no
    notification is sent. *)
Lemma finding_without_notification_counterexample :
  let self := Scenario.ready ["backup.zip"]%string None 3 5 in
  let fetch := run Scenario.site (get_page_content self "backup.zip") Scenario.start in
  let after := snd (run Scenario.site (check_path self "backup.zip") Scenario.start) in
  genuine self (fst fetch) = Some 200%Z
  /\ found_paths after = ["http://h/backup.zip"]%string
  /\ posts (trace after) = [].
Proof. vm_compute. repeat split. Qed.

Lemma notified_found_paths (net : Network) (self : WebScanner)
    (path full_url : string) (s : Z) (w : World) :
  found_paths (notified net self path full_url s w) = found_paths w.
Proof.
  unfold notified. destruct (webhook_url self) as [hook|]; [|done].
  by destruct (PyStr.nonempty hook).
Qed.

Lemma delivery_line_no_finding (path : string) (answer : exn + Response) :
  reports_finding (delivery_line path answer) = false.
Proof.
  unfold delivery_line. destruct answer as [e|response].
  - by destruct (is_RequestError e).
  - by destruct (status_code response =? 204)%Z.
Qed.

Lemma findings_no_report (t : list event) (l : line) :
  reports_finding l = false -> findings (t ++ [Printed l]) = findings t.
Proof. intros Hl. rewrite findings_snoc. destruct l; try done; apply app_nil_r. Qed.

Lemma notified_trace (net : Network) (self : WebScanner)
    (path full_url : string) (s : Z) (w : World) :
  findings (trace (notified net self path full_url s w)) = findings (trace w)
  /\ posts (trace (notified net self path full_url s w))
     = posts (trace w) ++ notification self full_url s.
Proof.
  unfold notified, notification.
  destruct (webhook_url self) as [hook|]; [|by rewrite app_nil_r].
  destruct (PyStr.nonempty hook); [|by rewrite app_nil_r].
  cbn [emit tick trace]. split.
  - rewrite findings_no_report by apply delivery_line_no_finding.
    by rewrite findings_snoc, app_nil_r.
  - by rewrite posts_snoc, app_nil_r, posts_snoc.
Qed.

(** C1 (amended). For a [plain] target and candidate, a probe reports and
    records a finding exactly when its fetch is genuine: the status is
    present and in 200..299 and the body is no duplicate of the baselines.  The finding is reported with its URL and
    status, its URL is appended to [found_paths], and it is notified, with a
    payload made of the URL and the status, when a webhook URL is set; any
    other fetch leaves the list, the findings and the notifications as they
    were. *)
Theorem probe_finding_iff_genuine (net : Network) (self : WebScanner)
    (path : string) (w : World) :
  Urllib.plain (url self) = true -> Urllib.plain path = true ->
  let full_url := Urllib.urljoin (url self) path in
  let fetch := run net (get_page_content self path) w in
  let after := snd (run net (check_path self path) w) in
  match genuine self (fst fetch) with
  | Some s =>
      found_paths after = found_paths w ++ [full_url]
      /\ findings (trace after) = findings (trace w) ++ [(full_url, s)]
      /\ posts (trace after) = posts (trace w) ++ notification self full_url s
  | None =>
      found_paths after = found_paths w
      /\ findings (trace after) = findings (trace w)
      /\ posts (trace after) = posts (trace w)
  end.
Proof.
  intros _ _ full_url fetch after.
  destruct (get_page_content_frame net self path w) as (Hf & Hp & Hg & _).
  fold full_url fetch in Hf, Hp, Hg.
  destruct (genuine self (fst fetch)) as [s|] eqn:Hgen; subst fetch after.
  - rewrite (check_path_genuine net self path w s Hgen). cbn [snd].
    fold full_url.
    destruct (notified_trace net self path full_url s
                (recorded full_url s (snd (run net (get_page_content self path) w))))
      as [Hg' Hp'].
    rewrite notified_found_paths, Hg', Hp'. unfold recorded.
    cbn [push emit found_paths trace].
    rewrite findings_snoc, posts_snoc, app_nil_r, Hf, Hg, Hp. done.
  - destruct (check_path_not_genuine net self path w Hgen)
      as (w2 & -> & [->|(l & Hl & ->)]); cbn [snd emit found_paths trace].
    + done.
    + rewrite findings_no_report by exact Hl.
      by rewrite posts_snoc, app_nil_r.
Qed.

(** * The pool of probe tasks *)

Lemma pool_step_move (net : Network) (i : nat) (P P' : Pool) :
  pool_step net i P = Some P' <-> pool_move net i P P'.
Proof.
  unfold pool_step. split.
  - destruct (failed P) eqn:Hfailed; [discriminate|].
    destruct (tasks P !! i) as [[body|p|r]|] eqn:Htask; try discriminate.
    + destruct (value P) eqn:Hvalue; [discriminate|].
      intros [= <-]. by eapply move_enter.
    + destruct p as [[]|e|u k|u j k|l k|u k]; intros [= <-].
      * by apply move_leave.
      * by apply move_raise.
      * by apply (move_effect net i P (AwaitGet u k)).
      * by apply (move_effect net i P (AwaitPost u j k)).
      * by apply (move_effect net i P (Println l k)).
      * by apply (move_effect net i P (Append u k)).
  - intros [body v Hfailed Htask Hvalue|Hfailed Htask|e Hfailed Htask
            |p Hfailed Htask Hleaf]; rewrite Hfailed, Htask.
    + by rewrite Hvalue.
    + done.
    + done.
    + by destruct p as [[]|e|u k|u j k|l k|u k].
Qed.

Lemma reachable_ind_move (net : Network) (P0 : Pool) (I : Pool -> Prop) :
  I P0 ->
  (forall P P' i, I P -> pool_move net i P P' -> I P') ->
  forall P, reachable net P0 P -> I P.
Proof.
  intros Hinit Hstep P Hreach. induction Hreach as [|P1 P2 i _ IH Hs].
  - exact Hinit.
  - apply (Hstep P1 P2 i IH). by apply pool_step_move.
Qed.

Lemma pool_exec_reachable (net : Network) (schedule : list nat) (P0 P : Pool) :
  reachable net P0 P -> reachable net P0 (pool_exec net schedule P).
Proof.
  revert P. induction schedule as [|i rest IH]; intros P Hreach; [done|].
  cbn [pool_exec]. destruct (pool_step net i P) as [P'|] eqn:Hstep.
  - apply IH. by eapply reach_step.
  - by apply IH.
Qed.

(** ** No task raises *)

Lemma safe_bind {A B : Type} (p : prog A) (f : A -> prog B) :
  safe p -> (forall a, safe (f a)) -> safe (p ≫= f).
Proof.
  change (p ≫= f) with (bind p f). intros Hp Hf.
  induction p as [a|e|u k IH|u j k IH|l k IH|u k IH]; cbn in *; auto.
Qed.

Lemma safe_try_except {A : Type} (p : prog A) (caught : exn -> bool)
    (handler : exn -> prog A) :
  (forall e, caught e = true) -> (forall e, safe (handler e)) ->
  safe (try_except p caught handler).
Proof.
  intros Hc Hh.
  induction p as [a|e|u k IH|u j k IH|l k IH|u k IH]; cbn; auto.
  by rewrite Hc.
Qed.

Lemma check_path_safe (self : WebScanner) (path : string) :
  safe (check_path self path).
Proof. apply safe_try_except; [done | intros e; exact I]. Qed.

Lemma limited_check_safe (self : WebScanner) (path : string) :
  safe (limited_check self path).
Proof. apply safe_try_except; [done | intros e; exact I]. Qed.

Lemma perform_safe {A : Type} (net : Network) (p : prog A) (w : World) :
  safe p -> safe (fst (perform net p w)).
Proof. destruct p; cbn; auto. Qed.

Lemma run_safe {A : Type} (net : Network) (p : prog A) (w : World) :
  safe p -> exists a, fst (run net p w) = inr a.
Proof.
  revert w. induction p as [a|e|u k IH|u j k IH|l k IH|u k IH]; intros w Hs;
    cbn in *; eauto. done.
Qed.

Lemma pool_move_safe (net : Network) (i : nat) (P P' : Pool) :
  pool_safe P -> pool_move net i P P' -> pool_safe P'.
Proof.
  intros [Hall _] Hmove.
  destruct Hmove as [body v _ Htask _|_ Htask|e _ Htask|p _ Htask _];
    pose proof (Forall_lookup_1 _ _ _ _ Hall Htask) as Hsafe; cbn in Hsafe.
  - split; [|done]. by apply Forall_insert.
  - split; [|done]. by apply Forall_insert.
  - done.
  - split; [|done]. apply Forall_insert; [done|]. by apply perform_safe.
Qed.

(** ** The semaphore *)

Lemma holders_insert (ts : list task) (i : nat) (t t' : task) :
  ts !! i = Some t ->
  length (List.filter is_holding (<[i := t']> ts))
  + (if is_holding t then 1 else 0)
  = length (List.filter is_holding ts) + (if is_holding t' then 1 else 0).
Proof.
  revert i. induction ts as [|x ts IH]; intros i Hi; [done|].
  destruct i as [|i].
  - cbn in Hi |- *. injection Hi as Hx. subst x.
    destruct (is_holding t), (is_holding t'); cbn; lia.
  - change ((x :: ts) !! S i) with (ts !! i) in Hi. specialize (IH i Hi).
    change (<[S i := t']> (x :: ts)) with (x :: <[i := t']> ts).
    cbn [List.filter]. destruct (is_holding x); cbn [length]; lia.
Qed.

Lemma pool_move_gate (net : Network) (slots i : nat) (P P' : Pool) :
  gate slots P -> pool_move net i P P' -> gate slots P'.
Proof.
  unfold gate, holders. intros Hgate Hmove.
  destruct Hmove as [body v _ Htask Hv|_ Htask|e _ Htask|p _ Htask _];
    cbn [value tasks];
    match goal with
    | |- context [<[i := ?t']> _] =>
        pose proof (holders_insert (tasks P) i _ t' Htask) as Hins
    end; cbn in Hins; lia.
Qed.

(** ** The ledger of found URLs *)

Lemma owes_weaken {A : Type} (us : list string) (p : prog A) :
  owes [] p -> owes us p.
Proof.
  induction p as [a|e|u k IH|u j k IH|l k IH|u k IH]; cbn; auto.
  intros (rest & Hperm & _). by apply Permutation_nil_cons in Hperm.
Qed.

Lemma owes_bind {A B : Type} (us : list string) (p : prog A) (f : A -> prog B) :
  owes [] p -> (forall a, owes us (f a)) -> owes us (p ≫= f).
Proof.
  change (p ≫= f) with (bind p f). intros Hp Hf.
  induction p as [a|e|u k IH|u j k IH|l k IH|u k IH]; cbn in *; auto.
  destruct Hp as (rest & Hperm & _). by apply Permutation_nil_cons in Hperm.
Qed.

Lemma owes_try_except {A : Type} (us : list string) (p : prog A)
    (caught : exn -> bool) (handler : exn -> prog A) :
  owes us p -> (forall e, owes [] (handler e)) ->
  owes us (try_except p caught handler).
Proof.
  intros Hp Hh. revert us Hp.
  induction p as [a|e|u k IH|u j k IH|l k IH|u k IH]; intros us Hp; cbn in *; auto.
  - destruct (caught e); [|done]. apply owes_weaken, Hh.
  - destruct Hp as (rest & Hperm & Hk). eauto.
Qed.

Lemma attempt_loop_owes (self : WebScanner) (full_url : string)
    (attempts : list Z) :
  owes [] (attempt_loop self full_url attempts).
Proof.
  induction attempts as [|attempt rest IH]; [exact I|].
  cbn. intros [e|response]; [|exact I].
  destruct (is_RequestError e); [|exact I].
  by destruct (attempt <? max_retry self)%Z.
Qed.

Lemma send_discord_webhook_owes (self : WebScanner) (full_url : string) (s : Z) :
  owes [] (send_discord_webhook self full_url s).
Proof.
  unfold send_discord_webhook. destruct (webhook_url self) as [hook|]; [|exact I].
  destruct (PyStr.nonempty hook); [|exact I]. cbn [negb].
  apply owes_try_except; [|intros e; exact I].
  apply owes_bind; [|intros response; by destruct (status_code response =? 204)%Z].
  intros [e|response]; exact I.
Qed.

(** A probe appends at most once, and only the URL of its candidate. *)
Lemma check_path_owes (self : WebScanner) (path : string) :
  owes [probe_url self path] (check_path self path).
Proof.
  unfold check_path. apply owes_try_except; [|intros e; exact I].
  apply owes_bind; [apply attempt_loop_owes|]. intros r.
  apply owes_bind; [by destruct r|]. intros [[s|] content]; [|exact I].
  destruct (in_success_range s).
  - apply owes_bind.
    + destruct content; [exact I|]. cbn.
      by destruct (truthy (index_content (baseline self))
                   || truthy (not_found_content (baseline self))).
    + intros similar. destruct similar; [exact I|]. cbn [negb owes].
      exists []. split; [done|].
      destruct (truthy (webhook_url self)); [|exact I].
      apply send_discord_webhook_owes.
  - by destruct (s =? 0)%Z.
Qed.

Lemma limited_check_owes (self : WebScanner) (path : string) :
  owes [probe_url self path] (limited_check self path).
Proof.
  apply owes_try_except; [apply check_path_owes | intros e; exact I].
Qed.

(** One effect either leaves the list alone or appends a URL that was owed. *)
Lemma perform_owes {A : Type} (net : Network) (us : list string) (p : prog A)
    (w : World) :
  owes us p ->
  (found_paths (snd (perform net p w)) = found_paths w
   /\ owes us (fst (perform net p w)))
  \/ (exists u rest,
        us ≡ₚ u :: rest
        /\ found_paths (snd (perform net p w)) = found_paths w ++ [u]
        /\ owes rest (fst (perform net p w))).
Proof.
  destruct p as [a|e|u k|u j k|l k|u k]; cbn; intros Hp; auto.
  destruct Hp as (rest & Hperm & Hk). right. eauto.
Qed.

Lemma concat_insert_owed (owed : list (list string)) (i : nat)
    (us rest : list string) (u : string) :
  owed !! i = Some us -> us ≡ₚ u :: rest ->
  concat owed ≡ₚ u :: concat (<[i := rest]> owed).
Proof.
  revert i. induction owed as [|x owed IH]; intros i Hi Hperm; [done|].
  destruct i as [|i].
  - cbn in Hi |- *. injection Hi as ->. by rewrite Hperm.
  - change ((x :: owed) !! S i) with (owed !! i) in Hi.
    change (<[S i := rest]> (x :: owed)) with (x :: <[i := rest]> owed).
    cbn [concat]. rewrite (IH i Hi Hperm). by rewrite Permutation_middle.
Qed.

Lemma pool_move_ledger (net : Network) (urls : list string) (i : nat)
    (P P' : Pool) :
  ledger urls P -> pool_move net i P P' -> ledger urls P'.
Proof.
  intros (owed & Hall & Hperm) Hmove. unfold ledger.
  destruct Hmove as [body v _ Htask _|_ Htask|e _ Htask|p _ Htask _];
    cbn [tasks world];
    destruct (Forall2_lookup_r _ _ _ _ _ Hall Htask) as (us & Hus & Howes);
    cbn in Howes.
  - exists owed. split; [|done].
    rewrite <- (list_insert_id owed i us Hus). by apply Forall2_insert.
  - exists owed. split; [|done].
    rewrite <- (list_insert_id owed i us Hus). by apply Forall2_insert.
  - exists owed. split; [|done].
    rewrite <- (list_insert_id owed i us Hus). by apply Forall2_insert.
  - destruct (perform_owes net us p (world P) Howes)
      as [[Hfound Hp]|(u & rest & Hu & Hfound & Hp)].
    + exists owed. split; [|by rewrite Hfound].
      rewrite <- (list_insert_id owed i us Hus). by apply Forall2_insert.
    + exists (<[i := rest]> owed). split; [by apply Forall2_insert|].
      rewrite Hfound, <- Hperm, (concat_insert_owed owed i us rest u Hus Hu).
      rewrite <- app_assoc. done.
Qed.

(** * The baseline and the start of a scan *)

Lemma fetch_returns_pair (net : Network) (self : WebScanner) (path : string)
    (w : World) :
  (0 <= max_retry self)%Z ->
  (forall i u e, net_get net i u = inl e -> e = RequestError) ->
  exists status content,
    fst (run net (get_page_content self path) w) = inr (Pair status content).
Proof.
  intros Hm Honly.
  destruct (get_page_content_unfold self path Hm) as [-> Hend].
  destruct (attempt_loop_returns_pair net self
              (Urllib.urljoin (url self) path) _ 0 w Hend)
    as [(st & c & Hr & _)|(e & i & _ & He & Hget)]; [eauto|].
  apply Honly in Hget. subst e. discriminate.
Qed.

Lemma fetch_pair_retry_nonnegative (net : Network) (self : WebScanner)
    (path : string) (w : World) (status : option Z) (content : option string) :
  fst (run net (get_page_content self path) w) = inr (Pair status content) ->
  (0 <= max_retry self)%Z.
Proof.
  intros Hr. destruct (Z.lt_ge_cases (max_retry self) 0) as [Hneg|]; [|done].
  rewrite (get_page_content_negative self path Hneg) in Hr. discriminate.
Qed.

(** The root is not answered with 200: the detection says no. *)
Lemma detect_no_index (net : Network) (self : WebScanner) (w : World)
    (status : option Z) (content : option string) :
  fst (run net (get_page_content self EmptyString) w) = inr (Pair status content) ->
  status_is status 200 = false ->
  run net (detect_index_and_404 self) w
  = (inr (false, self),
     emit (Printed FailedIndex) (snd (run net (get_page_content self EmptyString) w))).
Proof.
  intros Hroot Hstatus. unfold detect_index_and_404. rewrite run_bind.
  destruct (run net (get_page_content self EmptyString) w) as [r w1].
  cbn [fst snd] in *. subst r. cbn [unpack]. rewrite run_bind. cbn [run].
  by rewrite Hstatus.
Qed.

(** The root is answered with 200 and the client raises nothing but
    [RequestError]: the detection says yes, with the body of the root as the
    index baseline. *)
Lemma detect_index (net : Network) (self : WebScanner) (w : World)
    (content : option string) :
  fst (run net (get_page_content self EmptyString) w)
    = inr (Pair (Some 200%Z) content) ->
  (forall i u e, net_get net i u = inl e -> e = RequestError) ->
  exists not_found w1,
    run net (detect_index_and_404 self) w
    = (inr (true, set_not_found (set_index self content) not_found), w1).
Proof.
  intros Hroot Honly.
  pose proof (fetch_pair_retry_nonnegative net self _ w _ _ Hroot) as Hm.
  unfold detect_index_and_404. rewrite run_bind.
  destruct (run net (get_page_content self EmptyString) w) as [r w1].
  cbn [fst snd] in *. subst r. cbn [unpack]. rewrite run_bind. cbn [run status_is].
  change (200 =? 200)%Z with true. cbv iota.
  set (self1 := set_index self content).
  assert (0 <= max_retry self1)%Z as Hm1 by exact Hm.
  rewrite run_bind.
  destruct (fetch_returns_pair net self1 "nonexistentpage12345" w1 Hm1 Honly)
    as (st1 & c1 & Hr1).
  destruct (run net (get_page_content self1 "nonexistentpage12345") w1) as [r1 w2].
  cbn [fst] in Hr1. subst r1. cbn [unpack]. rewrite run_bind. cbn [run].
  destruct (status_is st1 404); [cbn [run]; eauto|].
  rewrite run_bind.
  destruct (fetch_returns_pair net self1 "anothernonexistent98765" w2 Hm1 Honly)
    as (st2 & c2 & Hr2).
  destruct (run net (get_page_content self1 "anothernonexistent98765") w2) as [r2 w3].
  cbn [fst] in Hr2. subst r2. cbn [unpack]. rewrite run_bind. cbn [run].
  destruct (status_is st2 404); cbn [run]; eauto.
Qed.

(** Whatever the detection answers, the scanner it hands back differs from
    the one it got in the baselines only. *)
Lemma detect_same_settings (net : Network) (self self1 : WebScanner)
    (w w1 : World) (b : bool) :
  run net (detect_index_and_404 self) w = (inr (b, self1), w1) ->
  same_settings self1 self.
Proof.
  unfold detect_index_and_404. rewrite run_bind.
  destruct (run net (get_page_content self EmptyString) w) as [[e|r] w0];
    [discriminate|].
  destruct r as [|st c]; cbn [unpack]; rewrite run_bind; cbn [run];
    [discriminate|].
  destruct (status_is st 200); [|cbn [run]; intros [= <- <- <-]; by repeat split].
  rewrite run_bind.
  destruct (run net (get_page_content (set_index self c) _) w0) as [[e|r] w2];
    [discriminate|].
  destruct r as [|st1 c1]; cbn [unpack]; rewrite run_bind; cbn [run];
    [discriminate|].
  destruct (status_is st1 404); [cbn [run]; intros [= <- <- <-]; by repeat split|].
  rewrite run_bind.
  destruct (run net (get_page_content (set_index self c) _) w2) as [[e|r] w3];
    [discriminate|].
  destruct r as [|st2 c2]; cbn [unpack]; rewrite run_bind; cbn [run];
    [discriminate|].
  destruct (status_is st2 404); cbn [run]; intros [= <- <- <-]; by repeat split.
Qed.

(** The pool a scan dispatches: one waiting task per candidate, in the order
    of the wordlist, all the slots free, nothing found. *)
Lemma scan_start_dispatched (net : Network) (self self1 : WebScanner)
    (w : World) (P0 : Pool) :
  scan_start net self w = Dispatched self1 P0 ->
  same_settings self1 self
  /\ (0 <= threads self1)%Z
  /\ value P0 = Z.to_nat (threads self1)
  /\ tasks P0 = List.map (fun path => Waiting (limited_check self1 path))
                         (wordlist self1)
  /\ found_paths (world P0) = []
  /\ failed P0 = None.
Proof.
  unfold scan_start.
  destruct (run net (detect_index_and_404 self) w) as [[e|[[] self2]] w1] eqn:Hrun;
    try discriminate.
  unfold Semaphore. destruct (Z.ltb_spec (threads self2) 0); [discriminate|].
  intros [= <- <-]. cbn. repeat split; try done.
  all: by destruct (detect_same_settings net self self2 w w1 true Hrun)
         as (? & ? & ? & ? & ?).
Qed.

(** A detection that says yes, with threads that are a count, dispatches. *)
Lemma scan_start_of_detect (net : Network) (self self1 : WebScanner)
    (w w1 : World) :
  run net (detect_index_and_404 self) w = (inr (true, self1), w1) ->
  (0 <= threads self1)%Z ->
  scan_start net self w
  = Dispatched self1 (dispatch self1 (Z.to_nat (threads self1)) w1).
Proof.
  intros Hdetect Hthreads. unfold scan_start, Semaphore. rewrite Hdetect.
  by destruct (Z.ltb_spec (threads self1) 0) as [Hneg|_]; [lia|].
Qed.

(** * The coordinator *)

(** C4, as stated, fails on a root that answers 204: the status is in the
    success range, and the scan stops before any probe. *)
Lemma root_no_content_counterexample :
  let self := Scenario.scanner ["admin"]%string None 3 5 in
  fst (run Scenario.no_content (get_page_content self EmptyString) Scenario.start)
    = inr (Pair (Some 204%Z) (Some EmptyString))
  /\ in_success_range 204 = true
  /\ scan_start Scenario.no_content self Scenario.start
     = Aborted {| clock := 1; found_paths := [];
                  trace := [Requested "http://h"; Printed FailedIndex] |}.
Proof. vm_compute. repeat split. Qed.

(** C4 (amended). When the fetch of the root ends with any status other than
    200, or with no status because every attempt failed, the scan stops
    there under every schedule: nothing is found, no task is created and
    the only requests made are those for the root.  When the root is
    answered with 200, the client raises nothing but [RequestError] and the
    number of threads is not negative, the scan dispatches one probe task
    per candidate, with the body of the root as index baseline. *)
Theorem baseline_decides_scan (net : Network) (self : WebScanner) (w : World) :
  let root := run net (get_page_content self EmptyString) w in
  (forall status content,
     fst root = inr (Pair status content) ->
     status_is status 200 = false ->
     scan_start net self w = Aborted (emit (Printed FailedIndex) (snd root))
     /\ (forall schedule,
           scan net schedule self w = Some (emit (Printed FailedIndex) (snd root)))
     /\ found_paths (emit (Printed FailedIndex) (snd root)) = found_paths w
     /\ findings (trace (emit (Printed FailedIndex) (snd root))) = findings (trace w)
     /\ exists n,
          requests (trace (emit (Printed FailedIndex) (snd root)))
          = requests (trace w) ++ repeat (probe_url self EmptyString) n)
  /\ (forall content,
        fst root = inr (Pair (Some 200%Z) content) ->
        (forall i u e, net_get net i u = inl e -> e = RequestError) ->
        (0 <= threads self)%Z ->
        exists self1 P,
          scan_start net self w = Dispatched self1 P
          /\ index_content (baseline self1) = content
          /\ tasks P = List.map (fun path => Waiting (limited_check self1 path))
                                (wordlist self)).
Proof.
  intros root. split.
  - intros status content Hroot Hstatus.
    pose proof (detect_no_index net self w status content Hroot Hstatus) as Hdetect.
    assert (scan_start net self w = Aborted (emit (Printed FailedIndex) (snd root)))
      as Hstart by (unfold scan_start; by rewrite Hdetect).
    split; [exact Hstart|]. split.
    { intros schedule. unfold scan. by rewrite Hstart. }
    destruct (get_page_content_frame net self EmptyString w) as (Hf & _ & Hg & [n Hr]).
    fold root in Hf, Hg, Hr. cbn [emit found_paths trace].
    rewrite findings_snoc, requests_snoc, !app_nil_r.
    split; [exact Hf|]. split; [exact Hg|]. by exists n.
  - intros content Hroot Honly Hthreads.
    destruct (detect_index net self w content Hroot Honly) as (nf & w1 & Hdetect).
    unfold scan_start. rewrite Hdetect. unfold Semaphore. cbn [threads set_not_found].
    cbn [set_index threads].
    destruct (Z.ltb_spec (threads self) 0) as [Hneg|_]; [lia|].
    do 2 eexists. split; [reflexivity|]. split; reflexivity.
Qed.

Lemma baseline_decides_scan_witness :
  (exists w', scan_start Scenario.dead (Scenario.scanner ["admin"]%string None 1 5)
                Scenario.start = Aborted w'
              /\ found_paths w' = []
              /\ requests (trace w') = ["http://h"; "http://h"]%string)
  /\ (exists self1 P,
        scan_start Scenario.site (Scenario.scanner ["admin"; "old"]%string None 1 5)
          Scenario.start = Dispatched self1 P
        /\ length (tasks P) = 2).
Proof.
  pose (self := Scenario.scanner ["admin"; "old"]%string None 1 5).
  destruct (baseline_decides_scan Scenario.dead
              (Scenario.scanner ["admin"]%string None 1 5) Scenario.start)
    as [Habort _].
  destruct (baseline_decides_scan Scenario.site self Scenario.start)
    as [_ Hgo].
  split.
  - destruct (Habort None None) as (Hstart & _ & Hfound & _);
      [vm_compute; reflexivity | reflexivity |].
    eexists. split; [exact Hstart|]. split; [exact Hfound|].
    vm_compute. reflexivity.
  - destruct (Hgo (Some "home page"%string)) as (self1 & P & Hstart & _ & Htasks).
    + vm_compute. reflexivity.
    + intros i u e. unfold Scenario.site, Scenario.pages, Scenario.answer; cbn.
      repeat (destruct (String.eqb u _)); discriminate.
    + vm_compute. discriminate.
    + exists self1, P. split; [exact Hstart|]. by rewrite Htasks.
Defined.

Lemma dispatched_safe (self : WebScanner) (words : list string) :
  Forall task_safe (List.map (fun path => Waiting (limited_check self path)) words).
Proof.
  induction words as [|path words IH]; constructor; [|exact IH].
  apply limited_check_safe.
Qed.

Lemma dispatched_holders (self : WebScanner) (words : list string) :
  length (List.filter is_holding
            (List.map (fun path => Waiting (limited_check self path)) words)) = 0.
Proof. induction words as [|path words IH]; [done | exact IH]. Qed.

Lemma dispatched_owes (self : WebScanner) (words : list string) :
  Forall2 task_owes (List.map (fun path => [probe_url self path]) words)
          (List.map (fun path => Waiting (limited_check self path)) words).
Proof.
  induction words as [|path words IH]; constructor; [|exact IH].
  apply limited_check_owes.
Qed.

Lemma concat_singletons {A B : Type} (f : A -> B) (l : list A) :
  concat (List.map (fun a => [f a]) l) = List.map f l.
Proof. induction l as [|a l IH]; [done|]. cbn. by rewrite IH. Qed.

Lemma probe_urls_same (a b : WebScanner) :
  same_settings a b -> probe_urls a = probe_urls b.
Proof.
  intros (Hurl & Hwords & _). unfold probe_urls, probe_url.
  by rewrite Hurl, Hwords.
Qed.

(** The three invariants hold of the pool a scan dispatches, hence of every
    state it reaches. *)
Lemma dispatched_invariants (net : Network) (self self1 : WebScanner)
    (w : World) (P0 P : Pool) :
  scan_start net self w = Dispatched self1 P0 ->
  reachable net P0 P ->
  pool_safe P /\ gate (Z.to_nat (threads self)) P /\ ledger (probe_urls self) P.
Proof.
  intros Hstart Hreach.
  destruct (scan_start_dispatched net self self1 w P0 Hstart)
    as (Hsame & Hthreads & Hvalue & Htasks & Hfound & Hfailed).
  pose proof Hsame as (_ & _ & _ & _ & Hth).
  revert P Hreach. apply reachable_ind_move.
  - split; [|split].
    + split; [|exact Hfailed]. rewrite Htasks. apply dispatched_safe.
    + unfold gate, holders. rewrite Htasks, dispatched_holders, Hvalue, Hth. lia.
    + exists (List.map (fun path => [probe_url self1 path]) (wordlist self1)).
      split; [rewrite Htasks; apply dispatched_owes|].
      rewrite Hfound, concat_singletons. cbn [app].
      by rewrite <- (probe_urls_same self1 self Hsame).
  - intros P1 P2 i (Hs & Hg & Hl) Hmove. split; [|split].
    + by eapply pool_move_safe.
    + by eapply pool_move_gate.
    + by eapply pool_move_ledger.
Qed.

(** C7, as stated, fails on a wordlist that names a page twice: each of the
    two probes finds it, and the list ends with the same URL twice. *)
Lemma duplicate_candidate_counterexample :
  let self := Scenario.scanner ["backup.zip"; "backup.zip"]%string None 3 5 in
  option_map found_paths
    (scan Scenario.site (Scenario.round_robin 2 5) self Scenario.start)
  = Some ["http://h/backup.zip"; "http://h/backup.zip"]%string
  /\ ~ NoDup ["http://h/backup.zip"; "http://h/backup.zip"]%string.
Proof.
  split; [vm_compute; reflexivity|].
  intros Hnd. apply NoDup_cons in Hnd as [Hin _]. apply Hin. by left.
Qed.

(** C7 (amended). A scan creates exactly one probe task per entry of the
    wordlist, in order; at every point of the probing, under every schedule
    and network, the list of findings is a sub-multiset of the URLs the
    entries are probed at: an entry contributes its URL at most once.  So the
    list has no duplicate whenever those URLs are pairwise distinct.  The
    target and the entries are [plain]. *)
Theorem findings_within_probed_urls (net : Network) (self self1 : WebScanner)
    (w : World) (P0 : Pool) :
  Urllib.plain (url self) = true ->
  Forall (fun path => Urllib.plain path = true) (wordlist self) ->
  scan_start net self w = Dispatched self1 P0 ->
  tasks P0 = List.map (fun path => Waiting (limited_check self1 path))
                      (wordlist self)
  /\ length (tasks P0) = length (wordlist self)
  /\ forall P, reachable net P0 P ->
       found_paths (world P) ⊆+ probe_urls self
       /\ (NoDup (probe_urls self) -> NoDup (found_paths (world P))).
Proof.
  intros _ _ Hstart.
  destruct (scan_start_dispatched net self self1 w P0 Hstart)
    as ((_ & Hwords & _) & _ & _ & Htasks & _).
  rewrite Hwords in Htasks.
  split; [exact Htasks|]. split; [by rewrite Htasks, length_map|].
  intros P Hreach.
  destruct (dispatched_invariants net self self1 w P0 P Hstart Hreach)
    as (_ & _ & owed & _ & Hperm).
  assert (found_paths (world P) ⊆+ probe_urls self) as Hsub.
  { rewrite <- Hperm. by apply submseteq_inserts_r. }
  split; [exact Hsub|]. intros Hnd. rewrite <- Hperm in Hnd.
  by apply NoDup_app in Hnd as [Hnd _].
Qed.

Lemma findings_within_probed_urls_witness :
  let self := Scenario.scanner ["admin"; "backup.zip"; "old"]%string None 1 2 in
  let P0 := Scenario.dispatched (scan_start Scenario.flaky self Scenario.start) in
  length (tasks P0) = 3
  /\ NoDup (found_paths (world (pool_exec Scenario.flaky (Scenario.round_robin 3 9) P0))).
Proof.
  intros self P0.
  assert (run Scenario.flaky (detect_index_and_404 self) Scenario.start
          = (inr (true, Scenario.ready ["admin"; "backup.zip"; "old"]%string None 1 2),
             snd (run Scenario.flaky (detect_index_and_404 self) Scenario.start)))
    as Hdetect by (vm_compute; reflexivity).
  assert (0 <= threads (Scenario.ready ["admin"; "backup.zip"; "old"]%string None 1 2))%Z as Hth by (vm_compute; discriminate).
  pose proof (scan_start_of_detect _ _ _ _ _ Hdetect Hth)
    as Hstart.
  assert (Urllib.plain (url self) = true) as Hurl by reflexivity.
  assert (Forall (fun path => Urllib.plain path = true) (wordlist self)) as Hwords
    by (repeat constructor).
  destruct (findings_within_probed_urls Scenario.flaky self _ Scenario.start _
              Hurl Hwords Hstart)
    as (_ & Hlen & Hinv).
  subst P0. rewrite Hstart.
  cbn [Scenario.dispatched].
  split; [rewrite Hlen; reflexivity|].
  apply Hinv; [apply pool_exec_reachable, reach_here|].
  apply (bool_decide_unpack _). vm_compute. exact I.
Defined.

Lemma printed_snoc (t : list event) (ev : event) :
  printed (t ++ [ev])
  = printed t ++ match ev with Printed l => [l] | _ => [] end.
Proof. unfold printed. rewrite omap_app. by destruct ev. Qed.

Lemma pool_move_others (net : Network) (i j : nat) (P P' : Pool) :
  pool_move net i P P' -> j <> i -> tasks P' !! j = tasks P !! j.
Proof.
  intros Hmove Hj.
  destruct Hmove; cbn [tasks]; by apply list_lookup_insert_ne.
Qed.

(** C8. A probe never raises: every exception inside it ends in its handler,
    which prints it, and [limited_check] adds a second handler.  In
    particular a notification that fails, by an exception of any class or by
    a status other than 204, is printed and leaves the URL of the finding in
    [found_paths].  In the pool, [gather] therefore never raises: in every
    state a scan reaches no exception is pending, a move of one task leaves
    the other tasks as they were, and once all tasks are out the summary
    counts every recorded finding. *)
Theorem probe_failures_are_contained (net : Network) (self : WebScanner)
    (path : string) (w : World) :
  let full_url := probe_url self path in
  let fetch := run net (get_page_content self path) w in
  let after := snd (run net (check_path self path) w) in
  fst (run net (check_path self path) w) = inr tt
  /\ fst (run net (limited_check self path) w) = inr tt
  /\ (forall e, fst fetch = inl e ->
        after = emit (Printed (ErrorCheckingPath path e)) (snd fetch))
  /\ (forall s hook,
        genuine self (fst fetch) = Some s ->
        webhook_url self = Some hook -> PyStr.nonempty hook = true ->
        let answer := net_post net (clock (snd fetch)) hook
                        (finding_payload full_url s) in
        found_paths after = found_paths w ++ [full_url]
        /\ last (printed (trace after)) = Some (delivery_line path answer))
  /\ (forall self0 w0 P0 P,
        scan_start net self0 w0 = Dispatched self P0 ->
        reachable net P0 P ->
        failed P = None
        /\ (forall i P', pool_step net i P = Some P' ->
              failed P' = None
              /\ forall j, j <> i -> tasks P' !! j = tasks P !! j)
        /\ (forallb is_finished (tasks P) = true ->
            scan_finish P
            = Some (emit (Printed (match found_paths (world P) with
                                   | [] => NoSensitiveFiles
                                   | _ => TotalFound (length (found_paths (world P)))
                                   end)) (world P)))).
Proof.
  intros full_url fetch after.
  split. { destruct (run_safe net _ w (check_path_safe self path)) as [[] ->]. done. }
  split. { destruct (run_safe net _ w (limited_check_safe self path)) as [[] ->]. done. }
  split.
  { intros e He. subst after fetch. unfold check_path.
    rewrite run_try_except, run_bind.
    destruct (run net (get_page_content self path) w) as [r w1].
    cbn [fst snd] in *. subst r. reflexivity. }
  split.
  { intros s hook Hgen Hhook Hne answer. subst after.
    rewrite (check_path_genuine net self path w s Hgen). cbn [snd].
    destruct (get_page_content_frame net self path w) as (Hf & _).
    rewrite notified_found_paths. unfold recorded at 1. cbn [push emit found_paths].
    split; [by rewrite Hf|].
    unfold notified. rewrite Hhook, Hne. cbn [emit tick trace].
    rewrite printed_snoc, last_snoc. reflexivity. }
  intros self0 w0 P0 P Hstart Hreach.
  destruct (dispatched_invariants net self0 self w0 P0 P Hstart Hreach)
    as (Hsafe & _ & _).
  split; [apply Hsafe|]. split.
  - intros i P' Hstep. apply pool_step_move in Hstep. split.
    + by destruct (pool_move_safe net i P P' Hsafe Hstep).
    + intros j Hj. by eapply pool_move_others.
  - intros Hdone. unfold scan_finish. destruct Hsafe as [_ ->]. rewrite Hdone.
    by destruct (found_paths (world P)).
Qed.

Lemma probe_failures_are_contained_witness :
  let self := Scenario.ready ["backup.zip"]%string (Some "http://hook"%string) 3 5 in
  let after := snd (run Scenario.site_hook_down (check_path self "backup.zip")
                        Scenario.start) in
  found_paths after = ["http://h/backup.zip"]%string
  /\ last (printed (trace after)) = Some WebhookError
  /\ option_map (fun w' => last (printed (trace w')))
       (scan Scenario.site_hook_down (Scenario.round_robin 1 7)
          (Scenario.scanner ["backup.zip"]%string (Some "http://hook"%string) 3 5)
          Scenario.start)
     = Some (Some (TotalFound 1)).
Proof.
  intros self after.
  destruct (probe_failures_are_contained Scenario.site_hook_down self
              "backup.zip" Scenario.start) as (_ & _ & _ & Hhook & Hpool).
  destruct (Hhook 200%Z "http://hook"%string) as [Hfound Hlast];
    [vm_compute; reflexivity | reflexivity | reflexivity |].
  split; [exact Hfound|]. split; [exact Hlast|].
  set (self0 := Scenario.scanner ["backup.zip"]%string (Some "http://hook"%string) 3 5).
  assert (run Scenario.site_hook_down (detect_index_and_404 self0) Scenario.start
          = (inr (true, self),
             snd (run Scenario.site_hook_down (detect_index_and_404 self0)
                      Scenario.start)))
    as Hdetect by (vm_compute; reflexivity).
  assert (0 <= threads self)%Z as Hth by (vm_compute; discriminate).
  pose proof (scan_start_of_detect _ _ _ _ _ Hdetect Hth) as Hstart.
  destruct (Hpool self0 Scenario.start _
              (pool_exec Scenario.site_hook_down (Scenario.round_robin 1 7)
                 (dispatch self (Z.to_nat (threads self))
                    (snd (run Scenario.site_hook_down (detect_index_and_404 self0)
                              Scenario.start)))) Hstart)
    as (_ & _ & Hfinish).
  { apply pool_exec_reachable, reach_here. }
  unfold scan. rewrite Hstart, Hfinish by (vm_compute; reflexivity).
  vm_compute. reflexivity.
Defined.

(** C9. At every point of the probing, under every schedule and network, the
    tasks inside [async with semaphore] and the free slots add up to the
    number of threads, so at most that many tasks hold the gate; this holds
    for a wordlist of any size.  A waiting task cannot move while all the
    slots are taken and enters as soon as one is free; a task whose body has
    ended, by its last statement or by an exception, leaves and frees its
    slot. *)
Theorem gate_bounds_concurrency (net : Network) (self self1 : WebScanner)
    (w : World) (P0 P : Pool) :
  scan_start net self w = Dispatched self1 P0 ->
  reachable net P0 P ->
  (Z.of_nat (holders P) <= threads self)%Z
  /\ value P + holders P = Z.to_nat (threads self)
  /\ (forall i body,
        tasks P !! i = Some (Waiting body) ->
        (holders P = Z.to_nat (threads self) -> pool_step net i P = None)
        /\ (holders P < Z.to_nat (threads self) ->
            exists P', pool_step net i P = Some P'
                       /\ tasks P' !! i = Some (Holding body)
                       /\ holders P' = S (holders P)))
  /\ (forall i p,
        tasks P !! i = Some (Holding p) -> is_leaf p = true ->
        exists P' r, pool_step net i P = Some P'
                     /\ tasks P' !! i = Some (Finished r)
                     /\ value P' = S (value P)
                     /\ S (holders P') = holders P).
Proof.
  intros Hstart Hreach.
  destruct (dispatched_invariants net self self1 w P0 P Hstart Hreach)
    as ([_ Hfailed] & Hgate & _).
  destruct (scan_start_dispatched net self self1 w P0 Hstart)
    as ((_ & _ & _ & _ & Hth) & Hthreads & _).
  unfold gate in Hgate. split; [lia|]. split; [exact Hgate|]. split.
  - intros i body Htask. split.
    + intros Hfull. unfold pool_step. rewrite Hfailed, Htask.
      by replace (value P) with 0 by lia.
    + intros Hfree. destruct (value P) as [|v] eqn:Hv; [lia|].
      eexists. split; [unfold pool_step; by rewrite Hfailed, Htask, Hv|].
      cbn [tasks]. split.
      * apply list_lookup_insert_eq. by eapply lookup_lt_Some.
      * pose proof (holders_insert (tasks P) i _ (Holding body) Htask) as Hins.
        unfold holders. cbn [tasks]. cbn in Hins. lia.
  - intros i p Htask Hleaf.
    destruct p as [[]|e|u k|u j k|l k|u k]; try discriminate.
    + do 2 eexists. split; [unfold pool_step; by rewrite Hfailed, Htask|].
      cbn [tasks value]. split; [|split; [done|]].
      * apply list_lookup_insert_eq. by eapply lookup_lt_Some.
      * pose proof (holders_insert (tasks P) i _ (Finished (inr tt)) Htask) as Hins.
        unfold holders. cbn [tasks]. cbn in Hins. lia.
    + do 2 eexists. split; [unfold pool_step; by rewrite Hfailed, Htask|].
      cbn [tasks value]. split; [|split; [done|]].
      * apply list_lookup_insert_eq. by eapply lookup_lt_Some.
      * pose proof (holders_insert (tasks P) i _ (Finished (inl e)) Htask) as Hins.
        unfold holders. cbn [tasks]. cbn in Hins. lia.
Qed.

Lemma fetch_retry_policy_witness :
  let self := Scenario.scanner ["old"]%string None 2 5 in
  (exists w',
     run Scenario.dead (get_page_content self "old") Scenario.start
       = (inr (Pair None None), w')
     /\ requests (trace w') = repeat "http://h/old"%string 3)
  /\ (exists w',
        run Scenario.flaky (get_page_content self "old") Scenario.start
          = (inr (Pair (Some 503%Z) (Some "unavailable"%string)), w')
        /\ requests (trace w') = repeat "http://h/old"%string 2).
Proof.
  intros self.
  assert (0 <= max_retry self)%Z as Hm by (vm_compute; discriminate).
  assert (Urllib.plain (url self) = true) as Hurl by reflexivity.
  assert (Urllib.plain "old" = true) as Hpath by reflexivity.
  destruct (fetch_retry_policy Scenario.dead self "old" Scenario.start
              Hurl Hpath Hm) as [Hfail _].
  destruct (fetch_retry_policy Scenario.flaky self "old" Scenario.start
              Hurl Hpath Hm) as [_ Hresp].
  split.
  - destruct Hfail as (w' & Hrun & Hreq); [intros i Hi; reflexivity|].
    exists w'. split; [exact Hrun | exact Hreq].
  - destruct (Hresp 1 {| status_code := 503; text := "unavailable" |})
      as (w' & Hrun & Hreq).
    + vm_compute. lia.
    + intros i Hi. assert (i = 0) as -> by lia. reflexivity.
    + reflexivity.
    + exists w'. split; [exact Hrun | exact Hreq].
Defined.

Lemma fetch_total_iff_retry_nonnegative_witness :
  (exists status content,
     fst (run Scenario.flaky
            (get_page_content (Scenario.scanner ["old"]%string None 3 5) "old")
            Scenario.start) = inr (Pair status content))
  /\ run Scenario.site
       (get_page_content (Scenario.scanner ["old"]%string None (-1) 5) "old")
       Scenario.start = (inr NoValue, Scenario.start).
Proof.
  destruct (fetch_total_iff_retry_nonnegative Scenario.flaky
              (Scenario.scanner ["old"]%string None 3 5) "old" Scenario.start)
    as [Hpos _]; [reflexivity | reflexivity |].
  destruct (fetch_total_iff_retry_nonnegative Scenario.site
              (Scenario.scanner ["old"]%string None (-1) 5) "old" Scenario.start)
    as [_ Hneg]; [reflexivity | reflexivity |].
  split.
  - destruct Hpos as [_ Hpair]; [vm_compute; discriminate|].
    apply Hpair. intros i u e. unfold Scenario.flaky, Scenario.pages, Scenario.answer.
    cbn [net_get]. destruct (Nat.even i); [by intros [= <-]|].
    repeat (destruct (String.eqb u _)); discriminate.
  - destruct Hneg as [Hnone _]; [vm_compute; reflexivity | exact Hnone].
Defined.

Lemma gate_bounds_concurrency_witness :
  let self := Scenario.scanner ["admin"; "backup.zip"; "old"]%string None 1 2 in
  let P0 := Scenario.dispatched (scan_start Scenario.flaky self Scenario.start) in
  (Z.of_nat (holders (pool_exec Scenario.flaky [0; 1; 2; 0; 2; 1]%nat P0)) <= 2)%Z.
Proof.
  intros self P0.
  assert (run Scenario.flaky (detect_index_and_404 self) Scenario.start
          = (inr (true, Scenario.ready ["admin"; "backup.zip"; "old"]%string None 1 2),
             snd (run Scenario.flaky (detect_index_and_404 self) Scenario.start)))
    as Hdetect by (vm_compute; reflexivity).
  assert (0 <= threads (Scenario.ready ["admin"; "backup.zip"; "old"]%string None 1 2))%Z
    as Hth by (vm_compute; discriminate).
  pose proof (scan_start_of_detect _ _ _ _ _ Hdetect Hth) as Hstart.
  subst P0. rewrite Hstart. cbn [Scenario.dispatched].
  eapply (gate_bounds_concurrency Scenario.flaky self _ Scenario.start _ _ Hstart).
  apply pool_exec_reachable, reach_here.
Defined.

(** C6. The claim fails on the code at its own example: the target
    [http://h/app], with or without a trailing slash, is stored without the
    slash, and joining [admin] to it replaces the last segment [app], so the
    probe requests [http://h/admin], which is not under [http://h/app]. *)
Lemma join_drops_target_path :
  let self := new_scanner "http://h/app/" None None 3 5 in
  url self = "http://h/app"%string
  /\ url (new_scanner "http://h/app" None None 3 5) = "http://h/app"%string
  /\ probe_url self "admin" = "http://h/admin"%string
  /\ requests (trace (snd (run Scenario.site (get_page_content self "admin")
                               Scenario.start)))
     = ["http://h/admin"%string]
  /\ String.prefix "http://h/app" (probe_url self "admin") = false.
Proof. vm_compute. repeat split. Qed.

Lemma probe_finding_iff_genuine_witness :
  let self := Scenario.ready ["backup.zip"]%string (Some "http://hook"%string) 3 5 in
  let after := snd (run Scenario.site (check_path self "backup.zip") Scenario.start) in
  found_paths after = ["http://h/backup.zip"]%string
  /\ findings (trace after) = [("http://h/backup.zip"%string, 200%Z)]
  /\ posts (trace after)
     = [("http://hook"%string, finding_payload "http://h/backup.zip" 200)].
Proof.
  intros self after.
  assert (Urllib.plain (url self) = true) as Hurl by reflexivity.
  assert (Urllib.plain "backup.zip" = true) as Hpath by reflexivity.
  pose proof (probe_finding_iff_genuine Scenario.site self "backup.zip"
                Scenario.start Hurl Hpath) as Hprobe.
  cbv zeta in Hprobe.
  assert (genuine self (fst (run Scenario.site (get_page_content self "backup.zip")
                               Scenario.start)) = Some 200%Z) as Hgen
    by (vm_compute; reflexivity).
  rewrite Hgen in Hprobe. exact Hprobe.
Defined.

(** * Further properties of the classifier *)

Lemma split_from_nil (s tok : string) :
  PyStr.split_from tok s = []
  <-> tok = EmptyString
      /\ Forall (fun c => PyStr.is_space c = true) (list_ascii_of_string s).
Proof.
  revert tok. induction s as [|c s IH]; intros tok; cbn [PyStr.split_from list_ascii_of_string].
  - destruct tok; cbn; split; try done; [by intros [? _]..].
  - destruct (PyStr.is_space c) eqn:Hc.
    + split.
      * intros H. apply app_eq_nil in H as [Hflush Hrest].
        apply IH in Hrest as [_ Hrest]. split; [by destruct tok|].
        by constructor.
      * intros [-> Hall]. inversion Hall as [|? ? _ Hrest]; subst.
        cbn. apply IH. by split.
    + rewrite IH. split.
      * intros [Hne _]. by destruct tok.
      * intros [_ Hall]. inversion Hall as [|? ? Hc' _]; subst. congruence.
Qed.

(** X1. Tokenisation as [similarity] uses it: every token of [text.split()]
    is a non-empty run without whitespace; a text has no token exactly when
    it consists of whitespace only; and splitting undoes the joining of such
    tokens by single spaces. *)
Theorem split_tokens_roundtrip :
  (forall s, Forall PyStr.clean (PyStr.split s))
  /\ (forall s, PyStr.split s = []
                <-> Forall (fun c => PyStr.is_space c = true) (list_ascii_of_string s))
  /\ (forall ts, Forall PyStr.clean ts -> PyStr.split (String.concat " " ts) = ts).
Proof.
  split; [apply split_clean|]. split; [|apply split_join].
  intros s. unfold PyStr.split. rewrite split_from_nil. tauto.
Qed.

Lemma split_tokens_roundtrip_witness :
  PyStr.split "home page" = ["home"; "page"]%string.
Proof.
  destruct split_tokens_roundtrip as (_ & _ & Hjoin).
  apply (Hjoin ["home"; "page"]%string).
  repeat constructor; discriminate.
Defined.

Lemma lower_char_idemp (c : ascii) :
  PyStr.lower_char (PyStr.lower_char c) = PyStr.lower_char c.
Proof. destruct c as [[] [] [] [] [] [] [] []]; reflexivity. Qed.

Lemma lower_char_space (c : ascii) :
  PyStr.is_space (PyStr.lower_char c) = PyStr.is_space c.
Proof. destruct c as [[] [] [] [] [] [] [] []]; reflexivity. Qed.

Lemma lower_append (a b : string) :
  PyStr.lower (a +:+ b) = PyStr.lower a +:+ PyStr.lower b.
Proof.
  induction a as [|c a IH]; [done|].
  rewrite append_cons. cbn [PyStr.lower]. by rewrite IH, append_cons.
Qed.

Lemma lower_flush (tok : string) :
  PyStr.flush (PyStr.lower tok) = List.map PyStr.lower (PyStr.flush tok).
Proof. by destruct tok. Qed.

Lemma split_from_lower (s tok : string) :
  PyStr.split_from (PyStr.lower tok) (PyStr.lower s)
  = List.map PyStr.lower (PyStr.split_from tok s).
Proof.
  revert tok. induction s as [|c s IH]; intros tok;
    cbn [PyStr.lower PyStr.split_from].
  - apply lower_flush.
  - rewrite lower_char_space. destruct (PyStr.is_space c).
    + rewrite map_app, <- lower_flush. f_equal. apply (IH EmptyString).
    + rewrite <- IH. by rewrite lower_append.
Qed.

Lemma lower_idemp (s : string) : PyStr.lower (PyStr.lower s) = PyStr.lower s.
Proof. induction s as [|c s IH]; [done|]. cbn. by rewrite lower_char_idemp, IH. Qed.

(** X2. The lower-casing [get_page_content] applies to a body is idempotent
    and commutes with the tokenisation of [similarity]: the tokens of the
    lower-cased body are the lower-cased tokens of the body, so case never
    moves a token boundary. *)
Theorem lower_commutes_with_split (s : string) :
  PyStr.lower (PyStr.lower s) = PyStr.lower s
  /\ PyStr.split (PyStr.lower s) = List.map PyStr.lower (PyStr.split s).
Proof.
  split; [apply lower_idemp|]. apply (split_from_lower s EmptyString).
Qed.

(** X3. Whatever the network answers, a body that [get_page_content] hands
    back is in lower case already: lower-casing it again changes nothing. *)
Theorem fetched_body_is_lower (net : Network) (self : WebScanner)
    (path : string) (w : World) (status : option Z) (body : string) :
  fst (run net (get_page_content self path) w) = inr (Pair status (Some body)) ->
  PyStr.lower body = body.
Proof.
  unfold get_page_content. generalize (range (max_retry self + 1)).
  intros attempts. revert w.
  induction attempts as [|attempt rest IH]; intros w; [discriminate|].
  cbn [attempt_loop run].
  destruct (net_get net (clock w) (Urllib.urljoin (url self) path))
    as [e|response].
  - destruct (is_RequestError e); [|discriminate].
    destruct (attempt <? max_retry self)%Z; cbn [run]; [apply IH | discriminate].
  - cbn [run fst]. intros [= _ <-].
    apply lower_idemp.
Qed.

Lemma fetched_body_is_lower_witness :
  PyStr.lower "archive contents xyz" = "archive contents xyz"%string.
Proof.
  apply (fetched_body_is_lower Scenario.site
           (Scenario.scanner ["backup.zip"]%string None 3 5) "backup.zip"
           Scenario.start (Some 200%Z)).
  vm_compute. reflexivity.
Defined.

Lemma size_inter_le_union (A B : gset string) : size (A ∩ B) <= size (A ∪ B).
Proof.
  apply subseteq_size. intros x.
  rewrite elem_of_intersection, elem_of_union. tauto.
Qed.

(** X4. The similarity of two texts is a ratio between 0 and 1, for all
    texts. *)
Theorem similarity_between_0_and_1 (a b : string) :
  (0 <= similarity a b)%Q /\ (similarity a b <= 1)%Q.
Proof.
  rewrite similarity_unfold.
  pose proof (size_inter_le_union (word_set a) (word_set b)) as Hle.
  destruct (size (word_set a ∪ word_set b)) as [|n] eqn:Hu.
  - split; [apply Qle_refl | discriminate].
  - unfold Qle. cbn [Qnum Qden]. split; [lia|].
    rewrite Z.mul_1_r, Z.mul_1_l.
    assert (Z.pos (Pos.of_nat (S n)) = Z.of_nat (S n)) as -> by lia. lia.
Qed.

(** The verdict on one reference, in whole numbers. *)
Lemma matches_counts (content r : string) :
  matches content (Some r) = true
  <-> 4 * size (word_set content ∪ word_set r)
      < 5 * size (word_set content ∩ word_set r).
Proof.
  rewrite matches_iff. split.
  - intros (r' & [= <-] & Hlt). revert Hlt. rewrite similarity_unfold.
    destruct (size (word_set content ∪ word_set r)) as [|n] eqn:Hu.
    + intros Hlt. vm_compute in Hlt. discriminate.
    + unfold Qlt. cbn [Qnum Qden].
      assert (Z.pos (Pos.of_nat (S n)) = Z.of_nat (S n)) as -> by lia. lia.
  - intros Hlt. exists r. split; [done|]. rewrite similarity_unfold.
    destruct (size (word_set content ∪ word_set r)) as [|n] eqn:Hu.
    + pose proof (size_inter_le_union (word_set content) (word_set r)). lia.
    + unfold Qlt. cbn [Qnum Qden].
      assert (Z.pos (Pos.of_nat (S n)) = Z.of_nat (S n)) as -> by lia. lia.
Qed.

(** X5. The classifier in whole numbers: a body is a duplicate exactly when,
    for the index baseline or for the not-found baseline, the common tokens
    are more than four fifths of all the tokens of the two texts; a ratio of
    exactly 0.8 is no duplicate. *)
Theorem duplicate_iff_token_counts (index not_found : option string)
    (content : string) :
  let over (ref : option string) :=
    exists r, ref = Some r
              /\ 4 * size (word_set content ∪ word_set r)
                 < 5 * size (word_set content ∩ word_set r) in
  is_similar_to_index_or_404
    {| index_content := index; not_found_content := not_found |} content = true
  <-> over index \/ over not_found.
Proof.
  intros over. unfold is_similar_to_index_or_404. cbn [index_content not_found_content].
  assert (forall ref, matches content ref = true <-> over ref) as Hover.
  { intros [r|]; [|split; [done | by intros (r & [=] & _)]].
    rewrite matches_counts. unfold over. split; [eauto|].
    by intros (r' & [= <-] & H). }
  rewrite <- !Hover.
  destruct (matches content index), (matches content not_found); intuition congruence.
Qed.

(** X6. The classifier looks at the sets of tokens only: a body whose tokens
    are those of the index page, in any order, with any repetition and any
    whitespace between them, is a duplicate as soon as the index page has a
    token; and so is one whose tokens are those of the not-found page. *)
Theorem same_tokens_are_duplicate (self : Baseline) (content r : string) :
  word_set content = word_set r -> word_set r <> ∅ ->
  index_content self = Some r \/ not_found_content self = Some r ->
  is_similar_to_index_or_404 self content = true.
Proof.
  intros Hsame Hne Href.
  assert (matches content (Some r) = true) as Hm.
  { apply matches_counts. rewrite Hsame.
    pose proof (union_idemp_L (word_set r)) as Hu.
    pose proof (intersection_idemp_L (word_set r)) as Hi. rewrite Hu, Hi.
    assert (size (word_set r) <> 0); [|lia].
    intros Hz. apply size_empty_iff in Hz. by apply leibniz_equiv in Hz. }
  unfold is_similar_to_index_or_404.
  destruct Href as [-> | ->]; rewrite Hm; [done|].
  by destruct (matches content (index_content self)).
Qed.

Lemma same_tokens_are_duplicate_witness :
  is_similar_to_index_or_404
    {| index_content := Some "home page"%string; not_found_content := None |}
    "page  home page" = true.
Proof.
  apply (same_tokens_are_duplicate _ _ "home page").
  - vm_compute. reflexivity.
  - vm_compute. discriminate.
  - by left.
Defined.

(** * Further properties of the scanner object *)

Lemma slashes_S (n : nat) : slashes (S n) = String "/" (slashes n).
Proof. reflexivity. Qed.

Lemma rstrip_slash_split (s : string) :
  exists n, s = PyStr.rstrip_slash s +:+ slashes n
            /\ (PyStr.rstrip_slash s = EmptyString \/ n = 0
                \/ PyStr.rstrip_slash s <> EmptyString).
Proof.
  induction s as [|c s (n & IH & _)]; [by exists 0; split; [|left]|].
  cbn [PyStr.rstrip_slash].
  destruct (PyStr.rstrip_slash s) as [|c' r] eqn:Hr.
  - destruct (Ascii.eqb_spec c "/") as [->|Hc].
    + exists (S n). split; [|by left]. rewrite slashes_S, append_nil.
      f_equal. by rewrite IH, append_nil.
    + exists n. split; [|by right; right]. rewrite append_cons, append_nil.
      f_equal. by rewrite IH, append_nil.
  - exists n. split; [|by right; right]. rewrite append_cons. f_equal. exact IH.
Qed.

Lemma rstrip_slash_last (s : string) :
  last_char (PyStr.rstrip_slash s) <> Some "/"%char.
Proof.
  induction s as [|c s IH]; [done|]. cbn [PyStr.rstrip_slash].
  destruct (PyStr.rstrip_slash s) as [|c' r] eqn:Hr.
  - destruct (Ascii.eqb_spec c "/") as [->|Hc]; [done|]. cbn. congruence.
  - exact IH.
Qed.

Lemma rstrip_slash_fixed (s : string) :
  last_char s <> Some "/"%char -> PyStr.rstrip_slash s = s.
Proof.
  induction s as [|c s IH]; [done|]. intros Hlast. cbn [PyStr.rstrip_slash].
  destruct s as [|c' s'].
  - cbn. destruct (Ascii.eqb_spec c "/") as [->|Hc]; [by destruct Hlast | done].
  - rewrite IH by exact Hlast. reflexivity.
Qed.

(** X7. The constructor normalises the target: the stored URL is the given
    one without its trailing slashes and with nothing else changed, it does
    not end with a slash, and building a scanner from it again stores it as
    it is. *)
Theorem target_url_normalised (target : string) (file : option (list string))
    (hook : option string) (retries workers : Z) :
  let self := new_scanner target file hook retries workers in
  (exists n, target = url self +:+ slashes n)
  /\ last_char (url self) <> Some "/"%char
  /\ url (new_scanner (url self) file hook retries workers) = url self.
Proof.
  cbn [new_scanner url]. split; [|split].
  - destruct (rstrip_slash_split target) as (n & Hn & _). by exists n.
  - apply rstrip_slash_last.
  - apply rstrip_slash_fixed, rstrip_slash_last.
Qed.

Lemma lstrip_first (s : string) (c : ascii) :
  first_char (lstrip s) = Some c -> PyStr.is_space c = false.
Proof.
  induction s as [|a s IH]; [done|]. cbn [lstrip].
  destruct (PyStr.is_space a) eqn:Ha; [exact IH|]. by intros [= <-].
Qed.

Lemma rstrip_last (s : string) (c : ascii) :
  last_char (rstrip s) = Some c -> PyStr.is_space c = false.
Proof.
  induction s as [|a s IH]; [done|]. cbn [rstrip].
  destruct (rstrip s) as [|c' r] eqn:Hr.
  - destruct (PyStr.is_space a) eqn:Ha; [done|]. by intros [= <-].
  - exact IH.
Qed.

Lemma rstrip_first (s : string) (c : ascii) :
  first_char s = Some c -> PyStr.is_space c = false ->
  first_char (rstrip s) = Some c.
Proof.
  destruct s as [|a s]; [done|]. intros [= ->] Hc. cbn [rstrip].
  destruct (rstrip s); [by rewrite Hc | done].
Qed.

Lemma rstrip_first_inv (s : string) (c : ascii) :
  first_char (rstrip s) = Some c -> first_char s = Some c.
Proof.
  destruct s as [|a s]; [done|]. cbn [rstrip].
  destruct (rstrip s); [by destruct (PyStr.is_space a) | done].
Qed.

Lemma strip_trimmed (l : string) : PyStr.nonempty (strip l) = true -> trimmed (strip l).
Proof.
  intros Hne. unfold trimmed, strip in *. split; [by destruct (rstrip (lstrip l))|].
  split.
  - intros c Hc. apply rstrip_first_inv in Hc. by eapply lstrip_first.
  - apply rstrip_last.
Qed.

Lemma load_wordlist_file (lines : list string) :
  Forall trimmed (load_wordlist (Some lines)).
Proof.
  cbn [load_wordlist]. induction lines as [|l lines IH]; [constructor|].
  cbn [List.filter]. destruct (PyStr.nonempty (strip l)) eqn:Hl; [|exact IH].
  constructor; [by apply strip_trimmed | exact IH].
Qed.

Lemma split_tokens_blank (l : string) : PyStr.split l = [] -> strip l = EmptyString.
Proof.
  unfold PyStr.split. rewrite split_from_nil. intros [_ Hall]. unfold strip.
  assert (lstrip l = EmptyString) as ->; [|done].
  induction l as [|c l IH]; [done|].
  inversion Hall as [|? ? Hc Hrest]; subst. cbn [lstrip]. rewrite Hc. by apply IH.
Qed.

(** X8. The wordlist a scanner probes: without a readable file it is the
    built-in list of ten entries; with a file it is made of the lines of the
    file in their order, each without the whitespace around it and none of
    them empty, so every entry is non-empty and neither starts nor ends with
    whitespace; blank lines add nothing, repeated lines are kept, and an
    existing file without entries gives an empty wordlist, not the built-in
    one. *)
Theorem wordlist_entries_trimmed :
  (load_wordlist None = default_wordlist /\ length default_wordlist = 10)
  /\ (forall lines, Forall trimmed (load_wordlist (Some lines)))
  /\ (forall a b, load_wordlist (Some (a ++ b))
                  = load_wordlist (Some a) ++ load_wordlist (Some b))
  /\ (forall l, PyStr.split l = [] -> load_wordlist (Some [l]) = [])
  /\ (forall lines, length (load_wordlist (Some lines)) <= length lines)
  /\ load_wordlist (Some []) = [].
Proof.
  split; [by split|]. split; [apply load_wordlist_file|]. split.
  { intros a b. cbn [load_wordlist]. by rewrite List.filter_app, map_app. }
  split.
  { intros l Hl. cbn [load_wordlist List.filter].
    assert (strip l = EmptyString) as ->; [|done].
    apply split_tokens_blank in Hl. exact Hl. }
  split; [|done].
  intros lines. cbn [load_wordlist]. rewrite length_map.
  induction lines as [|l lines IH]; [done|]. cbn [List.filter].
  destruct (PyStr.nonempty (strip l)); cbn [length]; lia.
Qed.

Lemma wordlist_entries_trimmed_witness :
  load_wordlist (Some ["  "%string]) = []
  /\ Forall trimmed (load_wordlist (Some [" admin "; ""; ".env"]%string)).
Proof.
  destruct wordlist_entries_trimmed as (_ & Hfile & _ & Hblank & _).
  split; [apply Hblank; reflexivity | apply Hfile].
Defined.

(** * Further properties of the prober and of the baseline *)

Lemma attempt_loop_count (net : Network) (self : WebScanner)
    (full_url : string) (attempts : list Z) (w : World) :
  exists n,
    n <= length attempts
    /\ (attempts <> [] -> 1 <= n)
    /\ requests (trace (snd (run net (attempt_loop self full_url attempts) w)))
       = requests (trace w) ++ repeat full_url n
    /\ clock (snd (run net (attempt_loop self full_url attempts) w))
       = clock w + n.
Proof.
  revert w. induction attempts as [|attempt rest IH]; intros w.
  - exists 0. cbn. rewrite app_nil_r. repeat split; [lia | done | lia].
  - cbn [attempt_loop run].
    assert (exists n, n <= length (attempt :: rest) /\ (attempt :: rest <> [] -> 1 <= n)
                      /\ requests (trace (tick (emit (Requested full_url) w)))
                         = requests (trace w) ++ repeat full_url n
                      /\ clock (tick (emit (Requested full_url) w)) = clock w + n)
      as Hone.
    { exists 1. cbn [length repeat tick emit trace clock]. rewrite requests_snoc.
      repeat split; [lia | lia | lia]. }
    destruct (net_get net (clock w) full_url) as [e|response]; [|exact Hone].
    destruct (is_RequestError e); [|exact Hone].
    destruct (attempt <? max_retry self)%Z; cbn [run].
    + destruct (IH (emit (Printed (AttemptFailed (attempt + 1) full_url))
                      (tick (emit (Requested full_url) w))))
        as (n & Hn & _ & Hreq & Hclock).
      exists (S n). cbn [length]. split; [lia|]. split; [lia|].
      rewrite Hreq, Hclock. cbn [tick emit trace clock].
      rewrite !requests_snoc, app_nil_r, <- app_assoc.
      split; [done | lia].
    + destruct Hone as (n & Hn & Hpos & Hreq & Hclock). exists n.
      cbn [snd tick emit trace clock] in *. rewrite !requests_snoc, app_nil_r.
      rewrite requests_snoc in Hreq. done.
Qed.

Lemma attempt_loop_answered (net : Network) (self : WebScanner)
    (full_url : string) (attempts : list Z) (w : World) (s : Z) (body : string) :
  fst (run net (attempt_loop self full_url attempts) w)
    = inr (Pair (Some s) (Some body)) ->
  answered net full_url s body.
Proof.
  revert w. induction attempts as [|attempt rest IH]; intros w; [discriminate|].
  cbn [attempt_loop run].
  destruct (net_get net (clock w) full_url) as [e|response] eqn:Hget.
  - destruct (is_RequestError e); [|discriminate].
    destruct (attempt <? max_retry self)%Z; cbn [run]; [apply IH | discriminate].
  - cbn [run fst]. intros [= <- <-]. by exists (clock w), response.
Qed.

(** X9. The cost and the provenance of a fetch of a [plain] path on a
    [plain] target, for every network: with [max_retry >= 0] it makes at
    least one and at most [max_retry + 1] requests, all of them for the URL
    of its path; it touches neither the
    list of findings nor the notifications; and a status and body it returns
    are the status and the lower-cased text of a response the network gave
    for that URL. *)
Theorem fetch_requests_bounded (net : Network) (self : WebScanner)
    (path : string) (w : World) :
  Urllib.plain (url self) = true -> Urllib.plain path = true ->
  (0 <= max_retry self)%Z ->
  let full_url := probe_url self path in
  let fetch := run net (get_page_content self path) w in
  (exists n,
     1 <= n /\ (Z.of_nat n <= max_retry self + 1)%Z
     /\ requests (trace (snd fetch)) = requests (trace w) ++ repeat full_url n
     /\ clock (snd fetch) = clock w + n)
  /\ found_paths (snd fetch) = found_paths w
  /\ posts (trace (snd fetch)) = posts (trace w)
  /\ (forall s body, fst fetch = inr (Pair (Some s) (Some body)) ->
                     answered net full_url s body).
Proof.
  intros _ _ Hm full_url fetch. subst fetch full_url.
  unfold get_page_content, probe_url.
  split; [|split; [|split]].
  - destruct (attempt_loop_count net self (Urllib.urljoin (url self) path)
                (range (max_retry self + 1)) w) as (n & Hn & Hpos & Hreq & Hclock).
    exists n. unfold range in Hn, Hpos. rewrite length_map, length_seq in Hn.
    split; [|split; [lia|done]].
    apply Hpos. replace (Z.to_nat (max_retry self + 1))
      with (S (Z.to_nat (max_retry self))) by lia. done.
  - apply attempt_loop_frame.
  - apply attempt_loop_frame.
  - intros s body. apply attempt_loop_answered.
Qed.

Lemma fetch_requests_bounded_witness :
  let self := Scenario.scanner ["old"]%string None 2 5 in
  let fetch := run Scenario.flaky (get_page_content self "old") Scenario.start in
  found_paths (snd fetch) = [] /\ answered Scenario.flaky "http://h/old" 503 "unavailable".
Proof.
  intros self fetch.
  destruct (fetch_requests_bounded Scenario.flaky self "old" Scenario.start)
    as (_ & Hfound & _ & Hanswer);
    [reflexivity | reflexivity | vm_compute; discriminate|].
  split; [exact Hfound|]. apply Hanswer. vm_compute. reflexivity.
Defined.

Lemma fetches_only_run {A : Type} (net : Network) (gets : list string)
    (p : prog A) (w : World) :
  fetches_only gets p ->
  found_paths (snd (run net p w)) = found_paths w
  /\ posts (trace (snd (run net p w))) = posts (trace w)
  /\ findings (trace (snd (run net p w))) = findings (trace w)
  /\ exists new, requests (trace (snd (run net p w))) = requests (trace w) ++ new
                 /\ Forall (fun u => u ∈ gets) new.
Proof.
  revert w. induction p as [a|e|u k IH|u j k IH|l k IH|u k IH]; intros w Hp;
    cbn [run fetches_only] in *; try done.
  - repeat split. exists []. by rewrite app_nil_r.
  - repeat split. exists []. by rewrite app_nil_r.
  - destruct Hp as [Hu Hk].
    destruct (IH (net_get net (clock w) u) (tick (emit (Requested u) w)) (Hk _))
      as (Hf & Hp & Hg & new & Hr & Hnew).
    cbn [tick emit found_paths trace] in Hf, Hp, Hg, Hr.
    rewrite posts_snoc, app_nil_r in Hp. rewrite findings_snoc, app_nil_r in Hg.
    rewrite requests_snoc, <- app_assoc in Hr.
    repeat split; try done. exists ([u] ++ new). split; [done|].
    by constructor.
  - destruct Hp as [Hl Hk].
    destruct (IH (emit (Printed l) w) Hk) as (Hf & Hp & Hg & new & Hr & Hnew).
    cbn [emit found_paths trace] in Hf, Hp, Hg, Hr.
    rewrite posts_snoc, app_nil_r in Hp. rewrite findings_no_report in Hg by done.
    rewrite requests_snoc, app_nil_r in Hr.
    repeat split; try done. by exists new.
Qed.

Lemma fetches_only_bind {A B : Type} (gets : list string) (p : prog A)
    (f : A -> prog B) :
  fetches_only gets p -> (forall a, fetches_only gets (f a)) ->
  fetches_only gets (p ≫= f).
Proof.
  change (p ≫= f) with (bind p f). intros Hp Hf.
  induction p as [a|e|u k IH|u j k IH|l k IH|u k IH]; cbn in *; try done; auto.
  - destruct Hp as [Hu Hk]. split; [done|]. intros r. by apply IH.
  - destruct Hp as [Hl Hk]. split; [done|]. by apply IH.
Qed.

Lemma attempt_loop_fetches_only (self : WebScanner) (full_url : string)
    (gets : list string) (attempts : list Z) :
  full_url ∈ gets -> fetches_only gets (attempt_loop self full_url attempts).
Proof.
  intros Hin. induction attempts as [|attempt rest IH]; [exact I|].
  cbn. split; [done|]. intros [e|response]; [|exact I].
  destruct (is_RequestError e); [|exact I].
  by destruct (attempt <? max_retry self)%Z.
Qed.

Lemma detect_fetches_only (self : WebScanner) :
  fetches_only (baseline_urls self) (detect_index_and_404 self).
Proof.
  unfold detect_index_and_404, baseline_urls, probe_url.
  apply fetches_only_bind;
    [apply attempt_loop_fetches_only; set_solver|].
  intros r. apply fetches_only_bind; [by destruct r|]. intros [status content].
  destruct (status_is status 200); [|done].
  apply fetches_only_bind;
    [apply attempt_loop_fetches_only; cbn; set_solver|].
  intros r1. apply fetches_only_bind; [by destruct r1|]. intros [st1 c1].
  destruct (status_is st1 404); [done|].
  apply fetches_only_bind;
    [apply attempt_loop_fetches_only; cbn; set_solver|].
  intros r2. apply fetches_only_bind; [by destruct r2|]. intros [st2 c2].
  by destruct (status_is st2 404).
Qed.

Lemma status_is_eq (status : option Z) (n : Z) :
  status_is status n = true -> status = Some n.
Proof.
  destruct status as [s|]; [|discriminate]. cbn.
  intros H. apply Z.eqb_eq in H. by subst.
Qed.

(** A fetch that ends with status [n] has a body, and both are an answer of
    the network. *)
Lemma fetch_status_answered (net : Network) (self : WebScanner) (path : string)
    (w : World) (status : option Z) (content : option string) (n : Z) :
  fst (run net (get_page_content self path) w) = inr (Pair status content) ->
  status_is status n = true ->
  exists body, content = Some body /\ answered net (probe_url self path) n body.
Proof.
  intros Hrun Hstatus. apply status_is_eq in Hstatus. subst status.
  pose proof (get_page_content_shape net self path w) as Hshape.
  rewrite Hrun in Hshape. destruct content as [body|]; [|done].
  exists body. split; [done|].
  exact (attempt_loop_answered net self _ _ w n body Hrun).
Qed.

(** X10. The baseline detection on a [plain] target, for every network: it
    records and reports
    no finding and sends no notification, and every request it makes is for
    the root or for one of its two made-up paths.  When it succeeds, the
    index baseline is the lower-cased body of a 200 answer for the root,
    and the not-found baseline, if there is one, is the lower-cased body of
    a 404 answer for one of the two made-up paths; the settings of the
    scanner are left as they were. *)
Theorem baseline_detection_provenance (net : Network) (self : WebScanner)
    (w : World) :
  Urllib.plain (url self) = true ->
  let r := run net (detect_index_and_404 self) w in
  found_paths (snd r) = found_paths w
  /\ posts (trace (snd r)) = posts (trace w)
  /\ findings (trace (snd r)) = findings (trace w)
  /\ (exists new, requests (trace (snd r)) = requests (trace w) ++ new
                  /\ Forall (fun u => u ∈ baseline_urls self) new)
  /\ (forall self1,
        fst r = inr (true, self1) ->
        same_settings self1 self
        /\ (exists body, index_content (baseline self1) = Some body
                         /\ answered net (probe_url self EmptyString) 200 body)
        /\ (forall body,
              not_found_content (baseline self1) = Some body ->
              answered net (probe_url self "nonexistentpage12345") 404 body
              \/ answered net (probe_url self "anothernonexistent98765") 404 body)).
Proof.
  intros _ r.
  destruct (fetches_only_run net (baseline_urls self) _ w (detect_fetches_only self))
    as (Hf & Hp & Hg & Hr).
  split; [exact Hf|]. split; [exact Hp|]. split; [exact Hg|]. split; [exact Hr|].
  intros self1 Hrun.
  split. { destruct r as [res w1] eqn:Hres. cbn [fst] in Hrun. subst res.
           by eapply detect_same_settings. }
  subst r. revert Hrun. unfold detect_index_and_404. rewrite run_bind.
  destruct (run net (get_page_content self EmptyString) w) as [[e|r0] w0] eqn:H0;
    [discriminate|].
  destruct r0 as [|st c]; cbn [unpack]; rewrite run_bind; cbn [run];
    [discriminate|].
  destruct (status_is st 200) eqn:Hst; [|cbn [run fst]; discriminate].
  destruct (fetch_status_answered net self EmptyString w st c 200) as (body & -> & Hroot);
    [by rewrite H0|done|].
  set (self0 := set_index self (Some body)).
  rewrite run_bind.
  destruct (run net (get_page_content self0 _) w0) as [[e|r1] w1] eqn:H1;
    [discriminate|].
  destruct r1 as [|st1 c1]; cbn [unpack]; rewrite run_bind; cbn [run];
    [discriminate|].
  destruct (status_is st1 404) eqn:Hst1.
  { cbn [run fst]. intros [= <-]. split; [by exists body|].
    intros nf Hnf. left.
    destruct (fetch_status_answered net self0 "nonexistentpage12345" w0 st1 c1 404)
      as (b1 & -> & Ha); [by rewrite H1|done|].
    cbn in Hnf. injection Hnf as <-. exact Ha. }
  rewrite run_bind.
  destruct (run net (get_page_content self0 _) w1) as [[e|r2] w2] eqn:H2;
    [discriminate|].
  destruct r2 as [|st2 c2]; cbn [unpack]; rewrite run_bind; cbn [run];
    [discriminate|].
  destruct (status_is st2 404) eqn:Hst2.
  { cbn [run fst]. intros [= <-]. split; [by exists body|].
    intros nf Hnf. right.
    destruct (fetch_status_answered net self0 "anothernonexistent98765" w1 st2 c2 404)
      as (b2 & -> & Ha); [by rewrite H2|done|].
    cbn in Hnf. injection Hnf as <-. exact Ha. }
  cbn [run fst]. intros [= <-]. split; [by exists body|]. intros nf Hnf. discriminate.
Qed.

Lemma baseline_detection_provenance_witness :
  let self := Scenario.scanner ["admin"]%string None 1 5 in
  answered Scenario.flaky "http://h/nonexistentpage12345" 404 "not found error"
  \/ answered Scenario.flaky "http://h/anothernonexistent98765" 404 "not found error".
Proof.
  intros self.
  destruct (baseline_detection_provenance Scenario.flaky self Scenario.start)
    as (_ & _ & _ & _ & Hok); [reflexivity|].
  destruct (Hok (Scenario.ready ["admin"]%string None 1 5)) as (_ & _ & Hnf).
  - vm_compute. reflexivity.
  - apply Hnf. reflexivity.
Defined.

(** * Further properties of the notification and of the coordinator *)

Lemma requests_quiet (t : list event) (ev : event) :
  match ev with Requested _ => False | _ => True end ->
  requests (t ++ [ev]) = requests t.
Proof. intros Hev. rewrite requests_snoc. destruct ev; [done|..]; apply app_nil_r. Qed.

(** X11. The notification of one finding, for every network: without a
    webhook URL it does nothing at all; with one it posts exactly once, to
    that URL, the payload made of the URL and status of the finding, and
    prints the outcome, "sent" for an answer 204 and "failed" with the
    status for any other answer.  It leaves the list of findings alone,
    makes no GET request, and a [RequestError] of the client never leaves
    it. *)
Theorem webhook_delivery (net : Network) (self : WebScanner) (full_url : string)
    (s : Z) (w : World) :
  let r := run net (send_discord_webhook self full_url s) w in
  found_paths (snd r) = found_paths w
  /\ requests (trace (snd r)) = requests (trace w)
  /\ findings (trace (snd r)) = findings (trace w)
  /\ posts (trace (snd r)) = posts (trace w) ++ notification self full_url s
  /\ fst r <> inl RequestError
  /\ (hooks self = [] -> r = (inr tt, w))
  /\ (forall hook response,
        hooks self = [hook] ->
        net_post net (clock w) hook (finding_payload full_url s) = inr response ->
        r = (inr tt,
             emit (Printed (if (status_code response =? 204)%Z then WebhookSent
                            else WebhookFailed (status_code response)))
                  (tick (emit (Posted hook (finding_payload full_url s)) w)))).
Proof.
  unfold send_discord_webhook, notification, hooks.
  destruct (webhook_url self) as [hook|];
    [|cbn; rewrite app_nil_r; repeat split; done].
  destruct (PyStr.nonempty hook);
    [|cbn; rewrite app_nil_r; repeat split; done].
  cbn [negb]. rewrite run_try_except. unfold client_post. rewrite run_bind.
  cbn [run].
  destruct (net_post net (clock w) hook (finding_payload full_url s))
    as [e|response] eqn:Hpost; cbn [raise_or_return run].
  - destruct e; cbn [is_RequestError print run fst snd tick emit found_paths trace];
      rewrite ?requests_snoc, ?findings_snoc, ?posts_snoc, ?app_nil_r;
      repeat split; try done; try (intros [=]; fail);
      intros hook' response' [= <-] Hresp; rewrite Hpost in Hresp; discriminate.
  - destruct (status_code response =? 204)%Z eqn:Hcode;
      cbn [print run fst snd tick emit found_paths trace];
      rewrite ?requests_snoc, ?findings_snoc, ?posts_snoc, ?app_nil_r;
      (repeat split; try done);
      intros hook' response' [= <-] Hresp; rewrite Hpost in Hresp;
      injection Hresp as <-; by rewrite Hcode.
Qed.

Lemma webhook_delivery_witness :
  let self := Scenario.ready ["backup.zip"]%string (Some "http://hook"%string) 3 5 in
  fst (run Scenario.site (send_discord_webhook self "http://h/backup.zip" 200)
           Scenario.start) = inr tt
  /\ run Scenario.site
       (send_discord_webhook (Scenario.ready ["backup.zip"]%string None 3 5)
          "http://h/backup.zip" 200) Scenario.start
     = (inr tt, Scenario.start).
Proof.
  intros self.
  destruct (webhook_delivery Scenario.site self "http://h/backup.zip" 200
              Scenario.start) as (_ & _ & _ & _ & _ & _ & Hsent).
  destruct (webhook_delivery Scenario.site
              (Scenario.ready ["backup.zip"]%string None 3 5)
              "http://h/backup.zip" 200 Scenario.start)
    as (_ & _ & _ & _ & _ & Hnone & _).
  split; [|apply Hnone; reflexivity].
  rewrite (Hsent "http://hook"%string {| status_code := 204; text := "" |});
    reflexivity.
Defined.

Lemma pool_exec_stuck (net : Network) (schedule : list nat) (P : Pool) :
  (forall i, pool_step net i P = None) -> pool_exec net schedule P = P.
Proof.
  intros Hstuck. induction schedule as [|i rest IH]; [done|].
  cbn [pool_exec]. by rewrite Hstuck.
Qed.

Lemma dispatch_none_can_enter (net : Network) (self : WebScanner) (w : World)
    (i : nat) :
  pool_step net i (dispatch self 0 w) = None.
Proof.
  unfold pool_step, dispatch. cbn [failed tasks value].
  rewrite list_lookup_fmap. by destruct (wordlist self !! i).
Qed.

Lemma dispatch_no_task (net : Network) (self : WebScanner) (slots : nat)
    (w : World) (i : nat) :
  wordlist self = [] -> pool_step net i (dispatch self slots w) = None.
Proof.
  intros Hnil. unfold pool_step, dispatch. cbn [failed tasks value].
  by rewrite Hnil.
Qed.

(** X12. The thread count and the wordlist at their edges, once the baseline
    is there.  A negative thread count ends the scan in its handler
    ([Semaphore] refuses it), under every schedule, before any probe.  A
    thread count of zero with a non-empty wordlist never ends: no task can
    ever take a slot, whatever the schedule.  An empty wordlist ends at
    once, with no probe and the line that nothing was found. *)
Theorem thread_count_edges (net : Network) (self self1 : WebScanner)
    (w w1 : World) :
  run net (detect_index_and_404 self) w = (inr (true, self1), w1) ->
  ((threads self < 0)%Z ->
     forall schedule,
       scan net schedule self w
       = Some (emit (Printed (ErrorDuringScan ValueError)) w1))
  /\ (threads self = 0%Z -> wordlist self <> [] ->
        forall schedule, scan net schedule self w = None)
  /\ ((0 <= threads self)%Z -> wordlist self = [] ->
        forall schedule,
          scan net schedule self w
          = Some (emit (Printed NoSensitiveFiles)
                       {| clock := clock w1; found_paths := []; trace := trace w1 |})).
Proof.
  intros Hdetect.
  destruct (detect_same_settings net self self1 w w1 true Hdetect)
    as (_ & Hwords & _ & _ & Hth).
  split; [|split].
  - intros Hneg schedule. unfold scan, scan_start, Semaphore. rewrite Hdetect, Hth.
    by destruct (Z.ltb_spec (threads self) 0) as [_|Hge]; [|lia].
  - intros Hzero Hne schedule. unfold scan.
    rewrite (scan_start_of_detect net self self1 w w1 Hdetect) by lia.
    rewrite Hth, Hzero. cbn [Z.to_nat].
    rewrite pool_exec_stuck by (intros i; apply dispatch_none_can_enter).
    unfold scan_finish, dispatch. cbn [failed tasks]. rewrite Hwords.
    by destruct (wordlist self).
  - intros Hth0 Hnil schedule. unfold scan.
    rewrite (scan_start_of_detect net self self1 w w1 Hdetect) by lia.
    rewrite pool_exec_stuck
      by (intros i; apply dispatch_no_task; by rewrite Hwords).
    unfold scan_finish, dispatch. cbn [failed tasks world found_paths].
    by rewrite Hwords, Hnil.
Qed.

Lemma thread_count_edges_witness :
  scan Scenario.site [0; 0; 0; 0]%nat (Scenario.scanner ["admin"]%string None 3 0)
       Scenario.start = None
  /\ option_map (fun w' => last (printed (trace w')))
       (scan Scenario.site [] (Scenario.scanner ["admin"]%string None 3 (-2))
          Scenario.start)
     = Some (Some (ErrorDuringScan ValueError))
  /\ option_map (fun w' => last (printed (trace w')))
       (scan Scenario.site [] (Scenario.scanner [] None 3 5) Scenario.start)
     = Some (Some NoSensitiveFiles).
Proof.
  split; [|split].
  - eapply (thread_count_edges Scenario.site _ (Scenario.ready ["admin"]%string None 3 0)).
    + vm_compute. reflexivity.
    + reflexivity.
    + discriminate.
  - destruct (thread_count_edges Scenario.site
                (Scenario.scanner ["admin"]%string None 3 (-2))
                (Scenario.ready ["admin"]%string None 3 (-2)) Scenario.start
                (snd (run Scenario.site
                        (detect_index_and_404
                           (Scenario.scanner ["admin"]%string None 3 (-2)))
                        Scenario.start))) as (Hneg & _).
    + vm_compute. reflexivity.
    + rewrite Hneg by (vm_compute; reflexivity). vm_compute. reflexivity.
  - destruct (thread_count_edges Scenario.site
                (Scenario.scanner [] None 3 5)
                (Scenario.ready [] None 3 5) Scenario.start
                (snd (run Scenario.site
                        (detect_index_and_404 (Scenario.scanner [] None 3 5))
                        Scenario.start))) as (_ & _ & Hempty).
    + vm_compute. reflexivity.
    + rewrite Hempty by (vm_compute; (discriminate || reflexivity)).
      vm_compute. reflexivity.
Defined.

(** ** Whom the probes talk to *)

Lemma talks_bind {A B : Type} (gets hooks : list string) (p : prog A)
    (f : A -> prog B) :
  talks gets hooks p -> (forall a, talks gets hooks (f a)) ->
  talks gets hooks (p ≫= f).
Proof.
  change (p ≫= f) with (bind p f). intros Hp Hf.
  induction p as [a|e|u k IH|u j k IH|l k IH|u k IH]; cbn in *; auto.
  - destruct Hp as [Hu Hk]. split; [done|]. intros r. by apply IH.
  - destruct Hp as [Hu Hk]. split; [done|]. intros r. by apply IH.
Qed.

Lemma talks_try_except {A : Type} (gets hooks : list string) (p : prog A)
    (caught : exn -> bool) (handler : exn -> prog A) :
  talks gets hooks p -> (forall e, talks gets hooks (handler e)) ->
  talks gets hooks (try_except p caught handler).
Proof.
  intros Hp Hh.
  induction p as [a|e|u k IH|u j k IH|l k IH|u k IH]; cbn in *; auto.
  - by destruct (caught e).
  - destruct Hp as [Hu Hk]. split; [done|]. intros r. by apply IH.
  - destruct Hp as [Hu Hk]. split; [done|]. intros r. by apply IH.
Qed.

Lemma talks_mono {A : Type} (gets gets' hooks : list string) (p : prog A) :
  (forall u, u ∈ gets -> u ∈ gets') -> talks gets hooks p -> talks gets' hooks p.
Proof.
  intros Hsub.
  induction p as [a|e|u k IH|u j k IH|l k IH|u k IH]; cbn; auto.
  - intros [Hu Hk]. split; [by apply Hsub|]. intros r. by apply IH.
  - intros [Hu Hk]. split; [done|]. intros r. by apply IH.
Qed.

Lemma attempt_loop_talks (self : WebScanner) (full_url : string)
    (hooks : list string) (attempts : list Z) :
  talks [full_url] hooks (attempt_loop self full_url attempts).
Proof.
  induction attempts as [|attempt rest IH]; [exact I|].
  cbn. split; [by apply list_elem_of_singleton|]. intros [e|response]; [|exact I].
  destruct (is_RequestError e); [|exact I].
  by destruct (attempt <? max_retry self)%Z.
Qed.

Lemma send_discord_webhook_talks (self : WebScanner) (gets : list string)
    (full_url : string) (s : Z) :
  talks gets (hooks self) (send_discord_webhook self full_url s).
Proof.
  unfold send_discord_webhook, hooks.
  destruct (webhook_url self) as [hook|]; [|exact I].
  destruct (PyStr.nonempty hook); [|exact I]. cbn [negb].
  apply talks_try_except; [|intros e; exact I].
  apply talks_bind; [|intros response; by destruct (status_code response =? 204)%Z].
  split; [by apply list_elem_of_singleton|]. intros [e|response]; exact I.
Qed.

Lemma check_path_talks (self : WebScanner) (path : string) :
  talks [probe_url self path] (hooks self) (check_path self path).
Proof.
  unfold check_path. apply talks_try_except; [|intros e; exact I].
  apply talks_bind; [apply attempt_loop_talks|]. intros r.
  apply talks_bind; [by destruct r|]. intros [[s|] content]; [|exact I].
  destruct (in_success_range s).
  - apply talks_bind.
    + destruct content; [exact I|]. cbn.
      by destruct (truthy (index_content (baseline self))
                   || truthy (not_found_content (baseline self))).
    + intros similar. destruct similar; [exact I|]. cbn [negb talks].
      destruct (truthy (webhook_url self)); [|exact I].
      apply send_discord_webhook_talks.
  - by destruct (s =? 0)%Z.
Qed.

Lemma limited_check_talks (self : WebScanner) (path : string) :
  path ∈ wordlist self ->
  talks (probe_urls self) (hooks self) (limited_check self path).
Proof.
  intros Hin. apply talks_try_except; [|intros e; exact I].
  apply (talks_mono [probe_url self path]); [|apply check_path_talks].
  intros u Hu. apply list_elem_of_singleton in Hu. subst u.
  unfold probe_urls. apply list_elem_of_In, in_map, list_elem_of_In, Hin.
Qed.

Lemma perform_talks {A : Type} (net : Network) (gets hooks : list string)
    (p : prog A) (w : World) :
  talks gets hooks p ->
  talks gets hooks (fst (perform net p w))
  /\ (exists new, requests (trace (snd (perform net p w))) = requests (trace w) ++ new
                  /\ Forall (fun u => u ∈ gets) new)
  /\ (exists new, posts (trace (snd (perform net p w))) = posts (trace w) ++ new
                  /\ Forall (fun uj => fst uj ∈ hooks) new).
Proof.
  destruct p as [a|e|u k|u j k|l k|u k]; cbn [perform talks fst snd tick emit push trace];
    intros Hp; rewrite ?requests_snoc, ?posts_snoc.
  - split; [done|]. split; exists []; by rewrite app_nil_r.
  - split; [done|]. split; exists []; by rewrite app_nil_r.
  - destruct Hp as [Hu Hk]. split; [apply Hk|]. split.
    + exists [u]. split; [done|]. by repeat constructor.
    + exists []. by rewrite !app_nil_r.
  - destruct Hp as [Hu Hk]. split; [apply Hk|]. split.
    + exists []. by rewrite !app_nil_r.
    + exists [(u, j)]. split; [done|]. by repeat constructor.
  - split; [done|]. split; exists []; by rewrite !app_nil_r.
  - split; [done|]. split; exists []; by rewrite app_nil_r.
Qed.

Lemma pool_move_talks (net : Network) (gets hooks : list string) (w0 : World)
    (i : nat) (P P' : Pool) :
  pool_talks gets hooks w0 P -> pool_move net i P P' -> pool_talks gets hooks w0 P'.
Proof.
  intros (Hall & Hreq & Hpost) Hmove.
  destruct Hmove as [body v _ Htask _|_ Htask|e _ Htask|p _ Htask _];
    pose proof (Forall_lookup_1 _ _ _ _ Hall Htask) as Ht; cbn in Ht;
    unfold pool_talks; cbn [tasks world].
  - split; [by apply Forall_insert|]. by split.
  - split; [by apply Forall_insert|]. by split.
  - split; [by apply Forall_insert|]. by split.
  - destruct (perform_talks net gets hooks p (world P) Ht)
      as (Hp' & (newr & Hr & Hnewr) & (newp & Hp & Hnewp)).
    split; [by apply Forall_insert|].
    destruct Hreq as (new1 & Hr1 & Hnew1). destruct Hpost as (new2 & Hp2 & Hnew2).
    split.
    + exists (new1 ++ newr). rewrite Hr, Hr1, <- app_assoc.
      split; [done|]. by apply Forall_app.
    + exists (new2 ++ newp). rewrite Hp, Hp2, <- app_assoc.
      split; [done|]. by apply Forall_app.
Qed.

(** X13. Whom a scan of a [plain] target with [plain] candidates talks to
    while it probes, under every schedule and for every network: every GET
    request goes to the URL of an entry of the wordlist, and every POST to
    the configured webhook URL; without a webhook URL no POST is made at
    all. *)
Theorem probes_talk_to_target_only (net : Network) (self self1 : WebScanner)
    (w : World) (P0 P : Pool) :
  Urllib.plain (url self) = true ->
  Forall (fun path => Urllib.plain path = true) (wordlist self) ->
  scan_start net self w = Dispatched self1 P0 ->
  reachable net P0 P ->
  (exists new, requests (trace (world P)) = requests (trace (world P0)) ++ new
               /\ Forall (fun u => u ∈ probe_urls self) new)
  /\ (exists new, posts (trace (world P)) = posts (trace (world P0)) ++ new
                  /\ Forall (fun uj => fst uj ∈ hooks self) new)
  /\ (hooks self = [] -> posts (trace (world P)) = posts (trace (world P0))).
Proof.
  intros _ _ Hstart Hreach.
  destruct (scan_start_dispatched net self self1 w P0 Hstart)
    as (Hsame & _ & _ & Htasks & _).
  assert (hooks self1 = hooks self) as Hhooks
    by (destruct Hsame as (_ & _ & Hh & _); unfold hooks; by rewrite Hh).
  assert (pool_talks (probe_urls self) (hooks self) (world P0) P) as (_ & Hr & Hp).
  { revert P Hreach. apply reachable_ind_move.
    - split; [|split; exists []; by rewrite app_nil_r].
      rewrite Htasks, <- (probe_urls_same self1 self Hsame), <- Hhooks.
      apply Forall_forall. intros t Ht. apply list_elem_of_In, in_map_iff in Ht.
      destruct Ht as (path & <- & Hin). apply limited_check_talks.
      by apply list_elem_of_In.
    - intros P1 P2 i. apply pool_move_talks. }
  split; [exact Hr|]. split; [exact Hp|].
  intros Hnone. destruct Hp as (new & -> & Hnew). rewrite Hnone in Hnew.
  destruct new as [|uj new]; [by rewrite app_nil_r|].
  apply Forall_cons in Hnew as [Huj _]. by apply elem_of_nil in Huj.
Qed.

Lemma probes_talk_to_target_only_witness :
  let self := Scenario.scanner ["admin"; "backup.zip"]%string None 1 2 in
  let P0 := Scenario.dispatched (scan_start Scenario.flaky self Scenario.start) in
  posts (trace (world (pool_exec Scenario.flaky (Scenario.round_robin 2 9) P0)))
  = posts (trace (world P0)).
Proof.
  intros self P0.
  assert (run Scenario.flaky (detect_index_and_404 self) Scenario.start
          = (inr (true, Scenario.ready ["admin"; "backup.zip"]%string None 1 2),
             snd (run Scenario.flaky (detect_index_and_404 self) Scenario.start)))
    as Hdetect by (vm_compute; reflexivity).
  assert (0 <= threads (Scenario.ready ["admin"; "backup.zip"]%string None 1 2))%Z
    as Hth by (vm_compute; discriminate).
  pose proof (scan_start_of_detect _ _ _ _ _ Hdetect Hth) as Hstart.
  assert (Urllib.plain (url self) = true) as Hurl by reflexivity.
  assert (Forall (fun path => Urllib.plain path = true) (wordlist self)) as Hwords
    by (repeat constructor).
  subst P0. rewrite Hstart. cbn [Scenario.dispatched].
  eapply (probes_talk_to_target_only Scenario.flaky self _ Scenario.start _ _
            Hurl Hwords Hstart).
  - apply pool_exec_reachable, reach_here.
  - reflexivity.
Defined.

(** ** Progress and termination of the pool *)

Lemma pool_exec_app (net : Network) (a b : list nat) (P : Pool) :
  pool_exec net (a ++ b) P = pool_exec net b (pool_exec net a P).
Proof.
  revert P. induction a as [|i a IH]; intros P; [done|].
  cbn [app pool_exec]. by destruct (pool_step net i P).
Qed.

(** A task inside the gate, picked again and again, runs its body to the end
    and leaves, whatever the network answers. *)
Lemma holding_runs (net : Network) (i : nat) (p : prog unit) (P : Pool) :
  failed P = None -> tasks P !! i = Some (Holding p) -> safe p ->
  exists n,
    tasks (pool_exec net (repeat i n) P) = <[i := Finished (inr tt)]> (tasks P)
    /\ value (pool_exec net (repeat i n) P) = S (value P)
    /\ world (pool_exec net (repeat i n) P) = snd (run net p (world P))
    /\ failed (pool_exec net (repeat i n) P) = None.
Proof.
  revert P. induction p as [[]|e|u k IH|u j k IH|l k IH|u k IH];
    intros P Hfailed Htask Hsafe; cbn [safe] in Hsafe; [|done|..].
  - exists 1. cbn [repeat pool_exec]. unfold pool_step. by rewrite Hfailed, Htask.
  - set (P1 := {| value := value P;
                   tasks := <[i := Holding (k (net_get net (clock (world P)) u))]> (tasks P);
                   world := tick (emit (Requested u) (world P));
                   failed := None |}).
    destruct (IH (net_get net (clock (world P)) u) P1)
      as (n & Ht & Hv & Hw & Hf); [done| |done|].
    { cbn [tasks]. apply list_lookup_insert_eq. by eapply lookup_lt_Some. }
    exists (S n). cbn [repeat pool_exec].
    assert (pool_step net i P = Some P1) as -> by (unfold pool_step; by rewrite Hfailed, Htask).
    subst P1. rewrite Ht, Hv, Hw, Hf. cbn [tasks value world run].
    by rewrite list_insert_insert_eq.
  - set (P1 := {| value := value P;
                   tasks := <[i := Holding (k (net_post net (clock (world P)) u j))]> (tasks P);
                   world := tick (emit (Posted u j) (world P));
                   failed := None |}).
    destruct (IH (net_post net (clock (world P)) u j) P1)
      as (n & Ht & Hv & Hw & Hf); [done| |done|].
    { cbn [tasks]. apply list_lookup_insert_eq. by eapply lookup_lt_Some. }
    exists (S n). cbn [repeat pool_exec].
    assert (pool_step net i P = Some P1) as -> by (unfold pool_step; by rewrite Hfailed, Htask).
    subst P1. rewrite Ht, Hv, Hw, Hf. cbn [tasks value world run].
    by rewrite list_insert_insert_eq.
  - set (P1 := {| value := value P; tasks := <[i := Holding k]> (tasks P);
                   world := emit (Printed l) (world P); failed := None |}).
    destruct (IH P1) as (n & Ht & Hv & Hw & Hf); [done| |done|].
    { cbn [tasks]. apply list_lookup_insert_eq. by eapply lookup_lt_Some. }
    exists (S n). cbn [repeat pool_exec].
    assert (pool_step net i P = Some P1) as -> by (unfold pool_step; by rewrite Hfailed, Htask).
    subst P1. rewrite Ht, Hv, Hw, Hf. cbn [tasks value world run].
    by rewrite list_insert_insert_eq.
  - set (P1 := {| value := value P; tasks := <[i := Holding k]> (tasks P);
                   world := push u (world P); failed := None |}).
    destruct (IH P1) as (n & Ht & Hv & Hw & Hf); [done| |done|].
    { cbn [tasks]. apply list_lookup_insert_eq. by eapply lookup_lt_Some. }
    exists (S n). cbn [repeat pool_exec].
    assert (pool_step net i P = Some P1) as -> by (unfold pool_step; by rewrite Hfailed, Htask).
    subst P1. rewrite Ht, Hv, Hw, Hf. cbn [tasks value world run].
    by rewrite list_insert_insert_eq.
Qed.

Lemma waiting_runs (net : Network) (i : nat) (body : prog unit) (P : Pool) :
  failed P = None -> tasks P !! i = Some (Waiting body) -> 1 <= value P ->
  safe body ->
  exists n,
    tasks (pool_exec net (repeat i n) P) = <[i := Finished (inr tt)]> (tasks P)
    /\ value (pool_exec net (repeat i n) P) = value P
    /\ world (pool_exec net (repeat i n) P) = snd (run net body (world P))
    /\ failed (pool_exec net (repeat i n) P) = None.
Proof.
  intros Hfailed Htask Hvalue Hsafe.
  destruct (value P) as [|v] eqn:Hv; [lia|].
  set (P1 := {| value := v; tasks := <[i := Holding body]> (tasks P);
                world := world P; failed := None |}).
  destruct (holding_runs net i body P1) as (n & Ht & Hv' & Hw & Hf); [done| |done|].
  { cbn [tasks]. apply list_lookup_insert_eq. by eapply lookup_lt_Some. }
  exists (S n). cbn [repeat pool_exec].
  assert (pool_step net i P = Some P1) as ->
    by (unfold pool_step; by rewrite Hfailed, Htask, Hv).
  subst P1. rewrite Ht, Hv', Hw, Hf. cbn [tasks value world].
  by rewrite list_insert_insert_eq.
Qed.

(** The tasks run one after the other: the schedule that picks each task
    until it is out ends with all of them finished. *)
Lemma waiting_tasks_run_in_order (net : Network) (bodies : list (prog unit))
    (finished : list task) (P : Pool) :
  failed P = None -> 1 <= value P ->
  tasks P = finished ++ List.map Waiting bodies ->
  forallb is_finished finished = true ->
  Forall safe bodies ->
  exists schedule,
    forallb is_finished (tasks (pool_exec net schedule P)) = true
    /\ failed (pool_exec net schedule P) = None
    /\ world (pool_exec net schedule P)
       = fold_left (fun w body => snd (run net body w)) bodies (world P).
Proof.
  revert finished P. induction bodies as [|body bodies IH];
    intros finished P Hfailed Hvalue Htasks Hdone Hsafe.
  - exists []. cbn. rewrite Htasks. cbn. by rewrite app_nil_r.
  - apply Forall_cons in Hsafe as [Hbody Hsafe].
    assert (tasks P !! length finished = Some (Waiting body)) as Htask.
    { rewrite Htasks. cbn [List.map]. by apply list_lookup_middle. }
    destruct (waiting_runs net (length finished) body P Hfailed Htask Hvalue Hbody)
      as (n & Ht & Hv & Hw & Hf).
    destruct (IH (finished ++ [Finished (inr tt)])
                (pool_exec net (repeat (length finished) n) P))
      as (schedule & Hall & Hnone & Hworld); [done|lia| | |done|].
    { rewrite Ht, Htasks. cbn [List.map].
      rewrite insert_app_r_alt by lia. rewrite Nat.sub_diag. cbn.
      by rewrite <- app_assoc. }
    { rewrite forallb_app, Hdone. reflexivity. }
    exists (repeat (length finished) n ++ schedule).
    rewrite pool_exec_app. split; [exact Hall|]. split; [exact Hnone|].
    rewrite Hworld, Hw. reflexivity.
Qed.

Lemma fold_left_fmap {A B C : Type} (f : A -> C -> A) (g : B -> C)
    (l : list B) (a : A) :
  fold_left f (List.map g l) a = fold_left (fun a b => f a (g b)) l a.
Proof. revert a. induction l as [|b l IH]; intros a; [done | apply IH]. Qed.

(** X14. A scan ends.  Once the baseline is there and the thread count is
    at least one, there is a schedule under which every probe task runs to
    its end, whatever the network answers; the scan then prints its summary,
    the count of the findings or that there are none.  Under the schedule
    that runs the tasks one after the other the probes see the world in the
    order of the wordlist. *)
Theorem scan_terminates (net : Network) (self self1 : WebScanner) (w w1 : World) :
  run net (detect_index_and_404 self) w = (inr (true, self1), w1) ->
  (1 <= threads self)%Z ->
  let fresh := {| clock := clock w1; found_paths := []; trace := trace w1 |} in
  let final := probed_in_order net self1 fresh in
  exists schedule,
    scan net schedule self w = Some (emit (Printed (summary final)) final).
Proof.
  intros Hdetect Hthreads fresh final.
  destruct (detect_same_settings net self self1 w w1 true Hdetect)
    as (_ & _ & _ & _ & Hth).
  pose proof (scan_start_of_detect net self self1 w w1 Hdetect ltac:(lia)) as Hstart.
  destruct (waiting_tasks_run_in_order net
              (List.map (limited_check self1) (wordlist self1)) []
              (dispatch self1 (Z.to_nat (threads self1)) w1))
    as (schedule & Hall & Hnone & Hworld).
  - reflexivity.
  - cbn [dispatch value]. lia.
  - cbn [dispatch tasks app]. by rewrite map_map.
  - reflexivity.
  - apply Forall_forall. intros p Hp. apply list_elem_of_In, in_map_iff in Hp.
    destruct Hp as (path & <- & _). apply limited_check_safe.
  - exists schedule. unfold scan. rewrite Hstart. unfold scan_finish.
    rewrite Hnone, Hall, Hworld. rewrite fold_left_fmap.
    cbn [dispatch world]. fold fresh. unfold summary.
    change (fold_left (fun w0 path => snd (run net (limited_check self1 path) w0))
              (wordlist self1) fresh) with final.
    by destruct (found_paths final).
Qed.

Lemma scan_terminates_witness :
  exists schedule w',
    scan Scenario.flaky schedule
      (Scenario.scanner ["admin"; "backup.zip"; "old"]%string None 1 2)
      Scenario.start = Some w'
    /\ last (printed (trace w')) = Some (TotalFound 1).
Proof.
  destruct (scan_terminates Scenario.flaky
              (Scenario.scanner ["admin"; "backup.zip"; "old"]%string None 1 2)
              (Scenario.ready ["admin"; "backup.zip"; "old"]%string None 1 2)
              Scenario.start
              (snd (run Scenario.flaky
                      (detect_index_and_404
                         (Scenario.scanner ["admin"; "backup.zip"; "old"]%string None 1 2))
                      Scenario.start)))
    as (schedule & Hscan).
  - vm_compute. reflexivity.
  - vm_compute. discriminate.
  - exists schedule. eexists. split; [exact Hscan|]. vm_compute. reflexivity.
Defined.

Lemma some_unfinished (ts : list task) :
  forallb is_finished ts = false ->
  exists i t, ts !! i = Some t /\ is_finished t = false.
Proof.
  induction ts as [|t ts IH]; [discriminate|]. cbn [forallb].
  destruct (is_finished t) eqn:Ht.
  - intros H. destruct (IH H) as (i & t' & Hi & Ht'). by exists (S i), t'.
  - intros _. by exists 0, t.
Qed.

Lemma some_holding (ts : list task) :
  (exists i p, ts !! i = Some (Holding p))
  \/ length (List.filter is_holding ts) = 0.
Proof.
  induction ts as [|t ts [(i & p & Hi)|IH]].
  - by right.
  - left. by exists (S i), p.
  - destruct t as [body|p|r].
    + by right.
    + left. by exists 0, p.
    + by right.
Qed.

(** X15. The pool never deadlocks.  With a thread count of at least one, in
    every state a scan reaches, under every schedule and network, some task
    can move as long as some task is not finished. *)
Theorem pool_always_progresses (net : Network) (self self1 : WebScanner)
    (w : World) (P0 P : Pool) :
  scan_start net self w = Dispatched self1 P0 ->
  (1 <= threads self)%Z ->
  reachable net P0 P ->
  forallb is_finished (tasks P) = false ->
  exists i P', pool_step net i P = Some P'.
Proof.
  intros Hstart Hthreads Hreach Hbusy.
  destruct (dispatched_invariants net self self1 w P0 P Hstart Hreach)
    as ([_ Hfailed] & Hgate & _).
  unfold gate, holders in Hgate.
  destruct (some_holding (tasks P)) as [(i & p & Hi)|Hnone].
  - exists i. unfold pool_step. rewrite Hfailed, Hi.
    destruct p as [[]|e|u k|u j k|l k|u k]; cbn [perform]; eauto.
  - destruct (some_unfinished (tasks P) Hbusy) as (i & t & Hi & Ht).
    destruct t as [body|p|r]; [|exfalso|discriminate].
    + exists i. unfold pool_step. rewrite Hfailed, Hi.
      destruct (value P) as [|v] eqn:Hv; [lia | eauto].
    + clear -Hi Hnone. revert i Hi. induction (tasks P) as [|t ts IH]; intros i Hi; [done|].
      destruct i as [|i]; cbn in Hi.
      * injection Hi as ->. cbn in Hnone. lia.
      * cbn [List.filter] in Hnone. destruct (is_holding t); [cbn in Hnone; lia|].
        by eapply IH.
Qed.

Lemma pool_always_progresses_witness :
  let self := Scenario.scanner ["admin"; "backup.zip"]%string None 1 1 in
  let P0 := Scenario.dispatched (scan_start Scenario.flaky self Scenario.start) in
  exists i P', pool_step Scenario.flaky i
                 (pool_exec Scenario.flaky [1; 1; 0]%nat P0) = Some P'.
Proof.
  intros self P0.
  assert (run Scenario.flaky (detect_index_and_404 self) Scenario.start
          = (inr (true, Scenario.ready ["admin"; "backup.zip"]%string None 1 1),
             snd (run Scenario.flaky (detect_index_and_404 self) Scenario.start)))
    as Hdetect by (vm_compute; reflexivity).
  assert (0 <= threads (Scenario.ready ["admin"; "backup.zip"]%string None 1 1))%Z
    as Hth by (vm_compute; discriminate).
  pose proof (scan_start_of_detect _ _ _ _ _ Hdetect Hth) as Hstart.
  subst P0. rewrite Hstart. cbn [Scenario.dispatched].
  eapply (pool_always_progresses Scenario.flaky self _ Scenario.start _ _ Hstart).
  - vm_compute. discriminate.
  - apply pool_exec_reachable, reach_here.
  - vm_compute. reflexivity.
Defined.

(** ** The load a scan puts on the target *)

Lemma gets_at_most_mono {A : Type} (n m : nat) (p : prog A) :
  n <= m -> gets_at_most n p -> gets_at_most m p.
Proof.
  revert n m. induction p as [a|e|u k IH|u j k IH|l k IH|u k IH];
    intros n m Hnm; cbn; auto.
  - destruct n as [|n]; [done|]. destruct m as [|m]; [lia|].
    intros Hk r. apply (IH r n m); [lia | apply Hk].
  - intros Hk r. by apply (IH r n m).
  - by apply IH.
  - by apply IH.
Qed.

Lemma gets_at_most_bind {A B : Type} (n : nat) (p : prog A) (f : A -> prog B) :
  gets_at_most n p -> (forall a, gets_at_most 0 (f a)) ->
  gets_at_most n (p ≫= f).
Proof.
  change (p ≫= f) with (bind p f). intros Hp Hf. revert n Hp.
  induction p as [a|e|u k IH|u j k IH|l k IH|u k IH]; intros n Hp; cbn in *; auto.
  - apply (gets_at_most_mono 0); [lia | apply Hf].
  - destruct n as [|n]; [done|]. intros r. by apply IH.
Qed.

Lemma gets_at_most_try_except {A : Type} (n : nat) (p : prog A)
    (caught : exn -> bool) (handler : exn -> prog A) :
  gets_at_most n p -> (forall e, gets_at_most 0 (handler e)) ->
  gets_at_most n (try_except p caught handler).
Proof.
  intros Hp Hh. revert n Hp.
  induction p as [a|e|u k IH|u j k IH|l k IH|u k IH]; intros n Hp; cbn in *; auto.
  - destruct (caught e); [|done]. apply (gets_at_most_mono 0); [lia | apply Hh].
  - destruct n as [|n]; [done|]. intros r. by apply IH.
Qed.

Lemma attempt_loop_gets (self : WebScanner) (full_url : string)
    (attempts : list Z) :
  gets_at_most (length attempts) (attempt_loop self full_url attempts).
Proof.
  induction attempts as [|attempt rest IH]; [exact I|].
  cbn. intros [e|response]; [|exact I].
  destruct (is_RequestError e); [|exact I].
  by destruct (attempt <? max_retry self)%Z.
Qed.

Lemma send_discord_webhook_gets (self : WebScanner) (full_url : string) (s : Z) :
  gets_at_most 0 (send_discord_webhook self full_url s).
Proof.
  unfold send_discord_webhook. destruct (webhook_url self) as [hook|]; [|exact I].
  destruct (PyStr.nonempty hook); [|exact I]. cbn [negb].
  apply gets_at_most_try_except; [|intros e; exact I].
  apply gets_at_most_bind;
    [|intros response; by destruct (status_code response =? 204)%Z].
  intros [e|response]; exact I.
Qed.

(** A probe makes at most as many GET requests as its fetch has attempts. *)
Lemma limited_check_gets (self : WebScanner) (path : string) :
  gets_at_most (Z.to_nat (max_retry self + 1)) (limited_check self path).
Proof.
  apply gets_at_most_try_except; [|intros e; exact I].
  unfold check_path. apply gets_at_most_try_except; [|intros e; exact I].
  apply gets_at_most_bind.
  - unfold get_page_content.
    replace (Z.to_nat (max_retry self + 1))
      with (length (range (max_retry self + 1)))
      by (unfold range; by rewrite length_map, length_seq).
    apply attempt_loop_gets.
  - intros r. apply gets_at_most_bind; [by destruct r|].
    intros [[s|] content]; [|exact I].
    destruct (in_success_range s).
    + apply gets_at_most_bind.
      * destruct content; [exact I|]. cbn.
        by destruct (truthy (index_content (baseline self))
                     || truthy (not_found_content (baseline self))).
      * intros similar. destruct similar; [exact I|]. cbn [negb gets_at_most].
        destruct (truthy (webhook_url self)); [|exact I].
        apply send_discord_webhook_gets.
    + by destruct (s =? 0)%Z.
Qed.

Lemma perform_budget {A : Type} (net : Network) (n : nat) (p : prog A)
    (w : World) :
  gets_at_most n p ->
  exists m,
    gets_at_most m (fst (perform net p w))
    /\ length (requests (trace (snd (perform net p w)))) + m
       <= length (requests (trace w)) + n.
Proof.
  destruct p as [a|e|u k|u j k|l k|u k];
    cbn [perform gets_at_most fst snd tick emit push trace]; intros Hp;
    rewrite ?requests_snoc, ?length_app; cbn [length].
  - exists n. split; [done | lia].
  - exists n. split; [done | lia].
  - destruct n as [|n]; [done|]. exists n. split; [apply Hp | lia].
  - exists n. split; [apply Hp | lia].
  - exists n. split; [done | lia].
  - exists n. split; [done | lia].
Qed.

Lemma sum_list_insert (budgets : list nat) (i n m : nat) :
  budgets !! i = Some n ->
  sum_list (<[i := m]> budgets) + n = sum_list budgets + m.
Proof.
  revert i. induction budgets as [|b budgets IH]; intros i Hi; [done|].
  destruct i as [|i].
  - cbn in Hi |- *. injection Hi as ->. lia.
  - change ((b :: budgets) !! S i) with (budgets !! i) in Hi.
    change (<[S i := m]> (b :: budgets)) with (b :: <[i := m]> budgets).
    change (sum_list (b :: <[i := m]> budgets))
      with (b + sum_list (<[i := m]> budgets)).
    change (sum_list (b :: budgets)) with (b + sum_list budgets).
    specialize (IH i Hi). lia.
Qed.

Lemma pool_move_budget (net : Network) (total : nat) (w0 : World) (i : nat)
    (P P' : Pool) :
  within_budget total w0 P -> pool_move net i P P' -> within_budget total w0 P'.
Proof.
  intros (budgets & Hall & Hsum) Hmove. unfold within_budget.
  destruct Hmove as [body v _ Htask _|_ Htask|e _ Htask|p _ Htask _];
    cbn [tasks world];
    destruct (Forall2_lookup_r _ _ _ _ _ Hall Htask) as (n & Hn & Hbudget);
    cbn in Hbudget.
  - exists budgets. split; [|done].
    rewrite <- (list_insert_id budgets i n Hn). by apply Forall2_insert.
  - exists budgets. split; [|done].
    rewrite <- (list_insert_id budgets i n Hn). by apply Forall2_insert.
  - exists budgets. split; [|done].
    rewrite <- (list_insert_id budgets i n Hn). by apply Forall2_insert.
  - destruct (perform_budget net n p (world P) Hbudget) as (m & Hm & Hle).
    exists (<[i := m]> budgets). split; [by apply Forall2_insert|].
    pose proof (sum_list_insert budgets i n m Hn) as Hins. lia.
Qed.

Lemma dispatched_budget (self : WebScanner) (n : nat) (words : list string) :
  (forall path, gets_at_most n (limited_check self path)) ->
  Forall2 task_budget (repeat n (length words))
          (List.map (fun path => Waiting (limited_check self path)) words).
Proof.
  intros Hone. induction words as [|path words IH]; constructor; [apply Hone | exact IH].
Qed.

Lemma sum_list_repeat (n k : nat) : sum_list (repeat n k) = k * n.
Proof.
  induction k as [|k IH]; [done|]. cbn [repeat].
  change (sum_list (n :: repeat n k)) with (n + sum_list (repeat n k)).
  rewrite IH. lia.
Qed.

(** X16. The load of the probing on the target, under every schedule and for
    every network: at every point the GET requests made since the tasks were
    dispatched number at most [max_retry + 1] per entry of the wordlist
    (none at all when [max_retry] is negative). *)
Theorem probing_requests_bounded (net : Network) (self self1 : WebScanner)
    (w : World) (P0 P : Pool) :
  scan_start net self w = Dispatched self1 P0 ->
  reachable net P0 P ->
  length (requests (trace (world P)))
  <= length (requests (trace (world P0)))
     + length (wordlist self) * Z.to_nat (max_retry self + 1).
Proof.
  intros Hstart Hreach.
  destruct (scan_start_dispatched net self self1 w P0 Hstart)
    as ((_ & Hwords & _ & Hretry & _) & _ & _ & Htasks & _).
  assert (within_budget (length (wordlist self) * Z.to_nat (max_retry self + 1))
                        (world P0) P) as (budgets & _ & Hsum); [|lia].
  revert P Hreach. apply reachable_ind_move.
  - exists (repeat (Z.to_nat (max_retry self + 1)) (length (wordlist self))).
    split; [|by rewrite sum_list_repeat].
    rewrite Htasks, Hwords, <- Hretry. apply dispatched_budget.
    apply limited_check_gets.
  - intros P1 P2 i. apply pool_move_budget.
Qed.

Lemma probing_requests_bounded_witness :
  let self := Scenario.scanner ["admin"; "backup.zip"]%string None 1 2 in
  let P0 := Scenario.dispatched (scan_start Scenario.flaky self Scenario.start) in
  length (requests (trace (world (pool_exec Scenario.flaky (Scenario.round_robin 2 9) P0))))
  <= length (requests (trace (world P0))) + 2 * 2.
Proof.
  intros self P0.
  assert (run Scenario.flaky (detect_index_and_404 self) Scenario.start
          = (inr (true, Scenario.ready ["admin"; "backup.zip"]%string None 1 2),
             snd (run Scenario.flaky (detect_index_and_404 self) Scenario.start)))
    as Hdetect by (vm_compute; reflexivity).
  assert (0 <= threads (Scenario.ready ["admin"; "backup.zip"]%string None 1 2))%Z
    as Hth by (vm_compute; discriminate).
  pose proof (scan_start_of_detect _ _ _ _ _ Hdetect Hth) as Hstart.
  subst P0. rewrite Hstart. cbn [Scenario.dispatched].
  apply (probing_requests_bounded Scenario.flaky self _ Scenario.start _ _ Hstart).
  apply pool_exec_reachable, reach_here.
Defined.

(** ** The summary and the reported findings *)

Lemma tallied_bind {A B : Type} (due : option string) (p : prog A)
    (f : A -> prog B) :
  tallied due p -> (forall a, tallied None (f a)) -> tallied due (p ≫= f).
Proof.
  change (p ≫= f) with (bind p f). intros Hp Hf. revert due Hp.
  induction p as [a|e|u k IH|u j k IH|l k IH|u k IH]; intros due Hp; cbn in *.
  - subst due. apply Hf.
  - exact Hp.
  - destruct Hp as [-> Hk]. split; [done|]. intros r. by apply IH.
  - destruct Hp as [-> Hk]. split; [done|]. intros r. by apply IH.
  - destruct Hp as [-> Hk]. split; [done|]. by apply IH.
  - destruct Hp as [-> Hk]. split; [done|]. by apply IH.
Qed.

Lemma tallied_try_except {A : Type} (due : option string) (p : prog A)
    (caught : exn -> bool) (handler : exn -> prog A) :
  tallied due p -> (forall e, tallied None (handler e)) ->
  tallied due (try_except p caught handler).
Proof.
  intros Hp Hh. revert due Hp.
  induction p as [a|e|u k IH|u j k IH|l k IH|u k IH]; intros due Hp; cbn in *.
  - exact Hp.
  - subst due. destruct (caught e); [apply Hh | done].
  - destruct Hp as [-> Hk]. split; [done|]. intros r. by apply IH.
  - destruct Hp as [-> Hk]. split; [done|]. intros r. by apply IH.
  - destruct Hp as [-> Hk]. split; [done|]. by apply IH.
  - destruct Hp as [-> Hk]. split; [done|]. by apply IH.
Qed.

Lemma attempt_loop_tallied (self : WebScanner) (full_url : string)
    (attempts : list Z) :
  tallied None (attempt_loop self full_url attempts).
Proof.
  induction attempts as [|attempt rest IH]; [reflexivity|].
  cbn. split; [done|]. intros [e|response]; [|reflexivity].
  destruct (is_RequestError e); [|reflexivity].
  destruct (attempt <? max_retry self)%Z; cbn; auto.
Qed.

Lemma send_discord_webhook_tallied (self : WebScanner) (full_url : string)
    (s : Z) :
  tallied None (send_discord_webhook self full_url s).
Proof.
  unfold send_discord_webhook.
  destruct (webhook_url self) as [hook|]; [|reflexivity].
  destruct (PyStr.nonempty hook); [|reflexivity]. cbn [negb].
  apply tallied_try_except; [|intros e; cbn; auto].
  apply tallied_bind.
  - cbn. split; [done|]. intros [e|response]; reflexivity.
  - intros response. destruct (status_code response =? 204)%Z; cbn; auto.
Qed.

(** A probe prints [Found] for its own URL only, and appends that URL as
    its very next effect. *)
Lemma check_path_tallied (self : WebScanner) (path : string) :
  tallied None (check_path self path).
Proof.
  unfold check_path. apply tallied_try_except; [|intros e; cbn; auto].
  apply tallied_bind; [apply attempt_loop_tallied|]. intros r.
  apply tallied_bind; [by destruct r|]. intros [[s|] content]; [|reflexivity].
  destruct (in_success_range s).
  - apply tallied_bind.
    + destruct content; [reflexivity|]. cbn.
      by destruct (truthy (index_content (baseline self))
                   || truthy (not_found_content (baseline self))).
    + intros similar. destruct similar; [cbn; auto|]. cbn [negb tallied].
      split; [done|]. split; [done|].
      destruct (truthy (webhook_url self)); [|reflexivity].
      apply send_discord_webhook_tallied.
  - destruct (s =? 0)%Z; cbn; auto.
Qed.

Lemma limited_check_tallied (self : WebScanner) (path : string) :
  tallied None (limited_check self path).
Proof.
  apply tallied_try_except; [apply check_path_tallied | intros e; cbn; auto].
Qed.

Lemma dues_insert (dues : list (option string)) (i : nat)
    (d d' : option string) :
  dues !! i = Some d ->
  omap id (<[i := d']> dues) ++ option_list d ≡ₚ omap id dues ++ option_list d'.
Proof.
  revert i. induction dues as [|x dues IH]; intros i Hi; [done|].
  destruct i as [|i].
  - cbn in Hi. injection Hi as ->. cbn.
    destruct d as [u|], d' as [u'|]; cbn;
      rewrite <- ?Permutation_middle, ?app_nil_r; try done.
    apply perm_swap.
  - change ((x :: dues) !! S i) with (dues !! i) in Hi.
    change (<[S i := d']> (x :: dues)) with (x :: <[i := d']> dues).
    destruct x as [y|].
    + change (omap id (Some y :: <[i := d']> dues))
        with (y :: omap id (<[i := d']> dues)).
      change (omap id (Some y :: dues)) with (y :: omap id dues).
      cbn [app]. by rewrite (IH i Hi).
    + change (omap id (None :: <[i := d']> dues))
        with (omap id (<[i := d']> dues)).
      change (omap id (None :: dues)) with (omap id dues).
      exact (IH i Hi).
Qed.

Lemma pool_move_tally (net : Network) (w0 : World) (i : nat) (P P' : Pool) :
  tally w0 P -> pool_move net i P P' -> tally w0 P'.
Proof.
  intros (dues & t & Hall & Htrace & Hperm) Hmove. unfold tally.
  destruct Hmove as [body v _ Htask _|_ Htask|e _ Htask|p _ Htask _];
    cbn [tasks world];
    destruct (Forall2_lookup_r _ _ _ _ _ Hall Htask) as (d & Hd & Hdue);
    cbn in Hdue.
  - exists dues, t. split; [|done].
    rewrite <- (list_insert_id dues i d Hd). by apply Forall2_insert.
  - exists dues, t. split; [|done]. subst d.
    rewrite <- (list_insert_id dues i None Hd). by apply Forall2_insert.
  - exists dues, t. split; [|done]. subst d.
    rewrite <- (list_insert_id dues i None Hd). by apply Forall2_insert.
  - destruct p as [a|e|u k|u j k|l k|u k];
      cbn [perform fst snd tick emit push trace found_paths];
      cbn [tallied] in Hdue.
    + exists dues, t. split; [|done].
      rewrite <- (list_insert_id dues i d Hd). by apply Forall2_insert.
    + exists dues, t. split; [|done].
      rewrite <- (list_insert_id dues i d Hd). by apply Forall2_insert.
    + destruct Hdue as [-> Hk]. exists dues, (t ++ [Requested u]).
      split; [|split].
      * rewrite <- (list_insert_id dues i None Hd). apply Forall2_insert; [done|].
        apply Hk.
      * by rewrite Htrace, app_assoc.
      * rewrite findings_snoc. cbn. by rewrite app_nil_r.
    + destruct Hdue as [-> Hk]. exists dues, (t ++ [Posted u j]).
      split; [|split].
      * rewrite <- (list_insert_id dues i None Hd). apply Forall2_insert; [done|].
        apply Hk.
      * by rewrite Htrace, app_assoc.
      * rewrite findings_snoc. cbn. by rewrite app_nil_r.
    + destruct Hdue as [-> Hk].
      exists (<[i := match l with Found u _ => Some u | _ => None end]> dues),
             (t ++ [Printed l]).
      split; [|split].
      * by apply Forall2_insert.
      * by rewrite Htrace, app_assoc.
      * rewrite findings_snoc, fmap_app.
        pose proof (dues_insert dues i None
                      (match l with Found u _ => Some u | _ => None end) Hd) as Hins.
        cbn [option_list] in Hins. rewrite app_nil_r in Hins.
        rewrite Hins, app_assoc, Hperm. by destruct l.
    + destruct Hdue as [-> Hk]. exists (<[i := None]> dues), t.
      split; [|split].
      * by apply Forall2_insert.
      * done.
      * pose proof (dues_insert dues i (Some u) None Hd) as Hins.
        cbn [option_list] in Hins. rewrite app_nil_r in Hins.
        rewrite <- app_assoc, (Permutation_app_comm [u]), Hins. exact Hperm.
Qed.

Lemma dispatched_tallied (self : WebScanner) (words : list string) :
  Forall2 task_tallied (repeat None (length words))
          (List.map (fun path => Waiting (limited_check self path)) words).
Proof.
  induction words as [|path words IH]; constructor;
    [apply limited_check_tallied | exact IH].
Qed.

Lemma omap_repeat_None (n : nat) : omap id (repeat (@None string) n) = [].
Proof. induction n as [|n IH]; [done | exact IH]. Qed.

Lemma finished_dues (dues : list (option string)) (ts : list task) :
  Forall2 task_tallied dues ts -> forallb is_finished ts = true ->
  omap id dues = [].
Proof.
  induction 1 as [|d t dues ts Hd _ IH]; [done|]. cbn [forallb].
  intros [Ht Hts]%andb_prop. destruct t; try discriminate. cbn in Hd. subst d.
  exact (IH Hts).
Qed.

(** X17: under every schedule and network, the findings recorded during
    probing never outnumber the [Found] lines printed since the dispatch;
    once all tasks are finished the recorded URLs are those of the [Found]
    lines, up to order, and the scan ends with the summary that counts the
    [Found] lines of the probing phase, or says that there are none exactly
    when no such line was printed. *)
Theorem summary_counts_found_lines (net : Network) (self self1 : WebScanner)
    (w : World) (P0 P : Pool) :
  scan_start net self w = Dispatched self1 P0 ->
  reachable net P0 P ->
  exists t,
    trace (world P) = trace (world P0) ++ t
    /\ length (found_paths (world P)) <= length (findings t)
    /\ (forallb is_finished (tasks P) = true ->
        found_paths (world P) ≡ₚ (findings t).*1
        /\ scan_finish P
           = Some (emit (Printed (match findings t with
                                  | [] => NoSensitiveFiles
                                  | _ => TotalFound (length (findings t))
                                  end)) (world P))).
Proof.
  intros Hstart Hreach.
  destruct (dispatched_invariants net self self1 w P0 P Hstart Hreach)
    as ((_ & Hfailed) & _ & _).
  destruct (scan_start_dispatched net self self1 w P0 Hstart)
    as ((_ & Hwords & _) & _ & _ & Htasks & _).
  assert (tally (world P0) P) as (dues & t & Hall & Htrace & Hperm).
  { revert P Hreach Hfailed. intros P Hreach _. revert P Hreach.
    apply reachable_ind_move.
    - exists (repeat None (length (wordlist self1))), [].
      split; [|split].
      + rewrite Htasks, Hwords. apply dispatched_tallied.
      + by rewrite app_nil_r.
      + rewrite omap_repeat_None. pose proof Hstart as Hs.
        unfold scan_start in Hs.
        destruct (run net (detect_index_and_404 self) w) as [[e|[[] s1]] w1];
          try discriminate.
        destruct (Semaphore (threads s1)); [discriminate|].
        injection Hs as _ <-. done.
    - intros P1 P2 i. apply pool_move_tally. }
  exists t. split; [exact Htrace|]. split.
  - apply Permutation_length in Hperm.
    rewrite length_app, length_fmap in Hperm. lia.
  - intros Hdone. rewrite (finished_dues dues (tasks P) Hall Hdone) in Hperm.
    rewrite app_nil_r in Hperm. split; [exact Hperm|].
    unfold scan_finish. rewrite Hfailed, Hdone.
    apply Permutation_length in Hperm. rewrite length_fmap in Hperm.
    destruct (found_paths (world P)) as [|u us], (findings t) as [|f fs];
      try discriminate; [done|].
    by rewrite Hperm.
Qed.

Lemma summary_counts_found_lines_witness :
  let self := Scenario.scanner ["admin"; "backup.zip"]%string None 1 2 in
  let P0 := Scenario.dispatched (scan_start Scenario.site self Scenario.start) in
  let P := pool_exec Scenario.site (Scenario.round_robin 2 9) P0 in
  exists t,
    trace (world P) = trace (world P0) ++ t
    /\ length (found_paths (world P)) <= length (findings t)
    /\ (forallb is_finished (tasks P) = true ->
        found_paths (world P) ≡ₚ (findings t).*1
        /\ scan_finish P
           = Some (emit (Printed (match findings t with
                                  | [] => NoSensitiveFiles
                                  | _ => TotalFound (length (findings t))
                                  end)) (world P))).
Proof.
  intros self P0 P.
  assert (run Scenario.site (detect_index_and_404 self) Scenario.start
          = (inr (true, Scenario.ready ["admin"; "backup.zip"]%string None 1 2),
             snd (run Scenario.site (detect_index_and_404 self) Scenario.start)))
    as Hdetect by (vm_compute; reflexivity).
  assert (0 <= threads (Scenario.ready ["admin"; "backup.zip"]%string None 1 2))%Z
    as Hth by (vm_compute; discriminate).
  pose proof (scan_start_of_detect _ _ _ _ _ Hdetect Hth) as Hstart.
  subst P P0. rewrite Hstart. cbn [Scenario.dispatched].
  apply (summary_counts_found_lines Scenario.site self _ Scenario.start _ _ Hstart).
  apply pool_exec_reachable, reach_here.
Defined.

